(** * Accessible-users resolver, team-group-mapping guard and booking rows

    A shallow embedding of three pieces of the scheduling application:

    - [retrieveScopedAccessibleUsers.ts] (two revisions of the file),
    - the guard [userCanCreateTeamGroupMapping],
    - the row-building part of the bookings list view
      ([groupedBookings], [flatData], [finalData]).

    Asynchronous code that talks to the data store is embedded in a free
    monad over the store calls it awaits, so that both the value a function
    resolves to and the calls it issues can be observed. *)

From Stdlib Require Import ZArith List String Ascii Lia.
From Stdlib Require Import Sorting.Sorted Sorting.Permutation.
From stdpp Require Import base option list gmap strings sorting pretty.

Local Open Scope Z_scope.

(** ** Awaited calls *)

Module Async.

(** [t E R]: a computation that awaits calls drawn from the signature [E]
    and resolves to an [R]. *)
Inductive t (E : Type -> Type) (R : Type) : Type :=
| Return (r : R)
| Await {X : Type} (call : E X) (k : X -> t E R).
Arguments Return {E R} r.
Arguments Await {E R X} call k.

Fixpoint bind {E A B} (m : t E A) (f : A -> t E B) : t E B :=
  match m with
  | Return a => f a
  | Await call k => Await call (fun x => bind (k x) f)
  end.

Definition await {E X} (call : E X) : t E X := Await call Return.

(** A call as it appears in the log, without its answer. *)
Definition Issued (E : Type -> Type) : Type := { X : Type & E X }.
Definition issued {E X} (call : E X) : Issued E := existT X call.

(** Run a computation against a handler for its calls; the second
    component lists the calls in the order they were issued. *)
Fixpoint exec {E R} (h : forall X, E X -> X) (m : t E R) : R * list (Issued E) :=
  match m with
  | Return r => (r, [])
  | Await call k =>
      let (r, log) := exec h (k (h _ call)) in (r, issued call :: log)
  end.

Definition result {E R} (h : forall X, E X -> X) (m : t E R) : R := fst (exec h m).
Definition calls {E R} (h : forall X, E X -> X) (m : t E R) : list (Issued E) :=
  snd (exec h m).

End Async.

#[global] Instance Async_ret {E} : MRet (Async.t E) := fun _ r => Async.Return r.
#[global] Instance Async_bind {E} : MBind (Async.t E) := fun _ _ f m => Async.bind m f.

(** ** The data store *)

Inductive MembershipRole : Set := MEMBER | ADMIN | OWNER.

#[global] Instance MembershipRole_eq_dec : EqDecision MembershipRole.
Proof. solve_decision. Defined.

Record Membership : Set := {
  userId : Z;
  teamId : Z;
  role : MembershipRole;
  accepted : bool
}.

Record Team : Set := {
  id : Z;
  parentId : option Z;
  isOrganization : bool
}.

Record Store : Set := {
  memberships : list Membership;
  teams : list Team
}.

(** The [where] arguments the source passes to [prisma.membership]; an
    absent field puts no condition on the row. *)
Record MembershipWhere : Set := {
  where_userId : option Z;
  where_userId_in : option (list Z);
  where_teamId : option Z;
  where_role_in : option (list MembershipRole);
  where_accepted : option bool;
  where_team_isOrganization : option bool
}.

Record TeamWhere : Set := {
  where_id : option Z;
  where_parentId : option Z
}.

(** The [team] relation of a membership row. *)
Definition teamOf (db : Store) (m : Membership) : option Team :=
  find (fun t => id t =? teamId m) (teams db).

Definition holds {A} (cond : option A) (test : A -> bool) : bool :=
  match cond with
  | None => true
  | Some a => test a
  end.

Definition membershipMatches (db : Store) (w : MembershipWhere) (m : Membership) : bool :=
  holds (where_userId w) (fun u => userId m =? u)
  && holds (where_userId_in w) (fun us => bool_decide (userId m ∈ us))
  && holds (where_teamId w) (fun t => teamId m =? t)
  && holds (where_role_in w) (fun rs => bool_decide (role m ∈ rs))
  && holds (where_accepted w) (fun a => Bool.eqb (accepted m) a)
  && holds (where_team_isOrganization w)
       (fun o => match teamOf db m with
                 | Some t => Bool.eqb (isOrganization t) o
                 | None => false
                 end).

Definition teamMatches (w : TeamWhere) (t : Team) : bool :=
  holds (where_id w) (fun i => id t =? i)
  && holds (where_parentId w) (fun p => bool_decide (parentId t = Some p)).

(** Calls on [prisma.membership].  A [select] argument only narrows the
    fields of the rows that come back; the rows are returned whole and the
    code reads the selected field. *)
Inductive MembershipCall : Type -> Type :=
| membership_findFirst (w : MembershipWhere) : MembershipCall (option Membership)
| membership_findMany (w : MembershipWhere) : MembershipCall (list Membership).

(** Modelled from the spec: the membership store behind [prisma.membership],
    which is outside this slice.  [findFirst] answers with the first row
    that meets every condition of its [where] argument, or with null;
    [findMany] answers with all such rows. *)
Definition prismaMembership (db : Store) : forall X, MembershipCall X -> X :=
  fun X call =>
    match call in MembershipCall X return X with
    | membership_findFirst w => find (membershipMatches db w) (memberships db)
    | membership_findMany w => filter (fun m => membershipMatches db w m = true) (memberships db)
    end.

(** ** retrieveScopedAccessibleUsers.ts *)

(** First revision of the file: the admin's membership is looked up without
    a condition on [accepted]. *)
Module Resolver1.

Definition getAccessibleUsers (memberUserIds : list Z) (adminUserId : Z)
  : Async.t MembershipCall (list Z) :=
  adminOrgMembership ← Async.await (membership_findFirst
    {| where_userId := Some adminUserId;
       where_userId_in := None;
       where_teamId := None;
       where_role_in := Some [OWNER; ADMIN];
       where_accepted := None;
       where_team_isOrganization := Some true |});
  match adminOrgMembership with
  | None => mret []
  | Some adminOrgMembership =>
      let orgId := teamId adminOrgMembership in
      if (length memberUserIds =? 0)%nat then mret []
      else
        memberships ← Async.await (membership_findMany
          {| where_userId := None;
             where_userId_in := Some memberUserIds;
             where_teamId := Some orgId;
             where_role_in := None;
             where_accepted := Some true;
             where_team_isOrganization := None |});
        mret (map userId memberships)
  end.

Definition retrieveOrgScopedAccessibleUsers (adminId : Z)
  : Async.t MembershipCall (list Z) :=
  adminOrgMembership ← Async.await (membership_findFirst
    {| where_userId := Some adminId;
       where_userId_in := None;
       where_teamId := None;
       where_role_in := Some [OWNER; ADMIN];
       where_accepted := None;
       where_team_isOrganization := Some true |});
  match adminOrgMembership with
  | None => mret []
  | Some adminOrgMembership =>
      let organizationId := teamId adminOrgMembership in
      allMemberships ← Async.await (membership_findMany
        {| where_userId := None;
           where_userId_in := None;
           where_teamId := Some organizationId;
           where_role_in := None;
           where_accepted := Some true;
           where_team_isOrganization := None |});
      mret (map userId allMemberships)
  end.

End Resolver1.

(** Second revision of the file: the same two functions, with
    [accepted: true] added to the lookup of the admin's membership. *)
Module Resolver2.

Definition getAccessibleUsers (memberUserIds : list Z) (adminUserId : Z)
  : Async.t MembershipCall (list Z) :=
  adminOrgMembership ← Async.await (membership_findFirst
    {| where_userId := Some adminUserId;
       where_userId_in := None;
       where_teamId := None;
       where_role_in := Some [OWNER; ADMIN];
       where_accepted := Some true;
       where_team_isOrganization := Some true |});
  match adminOrgMembership with
  | None => mret []
  | Some adminOrgMembership =>
      let orgId := teamId adminOrgMembership in
      if (length memberUserIds =? 0)%nat then mret []
      else
        memberships ← Async.await (membership_findMany
          {| where_userId := None;
             where_userId_in := Some memberUserIds;
             where_teamId := Some orgId;
             where_role_in := None;
             where_accepted := Some true;
             where_team_isOrganization := None |});
        mret (map userId memberships)
  end.

Definition retrieveOrgScopedAccessibleUsers (adminId : Z)
  : Async.t MembershipCall (list Z) :=
  adminOrgMembership ← Async.await (membership_findFirst
    {| where_userId := Some adminId;
       where_userId_in := None;
       where_teamId := None;
       where_role_in := Some [OWNER; ADMIN];
       where_accepted := Some true;
       where_team_isOrganization := Some true |});
  match adminOrgMembership with
  | None => mret []
  | Some adminOrgMembership =>
      let organizationId := teamId adminOrgMembership in
      allMemberships ← Async.await (membership_findMany
        {| where_userId := None;
           where_userId_in := None;
           where_teamId := Some organizationId;
           where_role_in := None;
           where_accepted := Some true;
           where_team_isOrganization := None |});
      mret (map userId allMemberships)
  end.

End Resolver2.

(** ** userCanCreateTeamGroupMapping *)

Record HttpError : Set := {
  statusCode : Z;
  message : string
}.

(** How a call that may [throw] ends. *)
Inductive Outcome (A : Type) : Type :=
| Returned (a : A)
| Thrown (e : HttpError).
Arguments Returned {A} a.
Arguments Thrown {A} e.

(** The object [{ message, access }] that [canAccessOrganization] resolves to. *)
Record OrganizationAccess : Set := {
  access_message : string;
  access : bool
}.

(** The object [{ organizationId }] the guard returns. *)
Record Validated : Set := {
  organizationId : Z
}.

(** JavaScript truthiness of a [number | null] (or [number | undefined])
    value: [if (n)] is taken exactly when [n] is a number other than [0]. *)
Definition truthyNumber (n : option Z) : option Z :=
  match n with
  | Some n => if n =? 0 then None else Some n
  | None => None
  end.

Section Guard.

(** The session user is passed on to [canAccessOrganization] and is not
    inspected otherwise. *)
Context {TrpcSessionUser : Type}.

Inductive GuardCall : Type -> Type :=
| canAccessOrganization (user : TrpcSessionUser) (organizationId : Z)
  : GuardCall OrganizationAccess
| team_findFirst (w : TeamWhere) : GuardCall (option Team).

(** Modelled from the spec: the team store behind [prisma.team] (find-first
    by [id] and [parentId]), which is outside this slice, as is
    [canAccessOrganization]: the answers of the access check are taken as
    given by [saml]. *)
Definition guardWorld (saml : TrpcSessionUser -> Z -> OrganizationAccess) (db : Store)
  : forall X, GuardCall X -> X :=
  fun X call =>
    match call in GuardCall X return X with
    | canAccessOrganization user organizationId => saml user organizationId
    | team_findFirst w => find (teamMatches w) (teams db)
    end.

Definition userCanCreateTeamGroupMapping
    (user : TrpcSessionUser) (organizationId : option Z) (teamId : option Z)
  : Async.t GuardCall (Outcome Validated) :=
  match truthyNumber organizationId with
  | None =>
      mret (Thrown {| statusCode := 400; message := "Could not find organization id" |})
  | Some organizationId =>
      check ← Async.await (canAccessOrganization user organizationId);
      if negb (access check) then
        mret (Thrown {| statusCode := 400; message := access_message check |})
      else
        match truthyNumber teamId with
        | Some teamId =>
            orgTeam ← Async.await (team_findFirst
              {| where_id := Some teamId; where_parentId := Some organizationId |});
            match orgTeam with
            | None =>
                mret (Thrown {| statusCode := 400; message := "Could not find team" |})
            | Some _ => mret (Returned {| organizationId := organizationId |})
            end
        | None => mret (Returned {| organizationId := organizationId |})
        end
  end.

(** What a call of the guard ends with, and the calls it issues, in a
    world given by the access check [saml] and the store [db]. *)
Definition guardOutcome (saml : TrpcSessionUser -> Z -> OrganizationAccess) (db : Store)
    (user : TrpcSessionUser) (organizationId teamId : option Z) : Outcome Validated :=
  Async.result (guardWorld saml db)
    (userCanCreateTeamGroupMapping user organizationId teamId).

Definition guardCalls (saml : TrpcSessionUser -> Z -> OrganizationAccess) (db : Store)
    (user : TrpcSessionUser) (organizationId teamId : option Z)
  : list (Async.Issued GuardCall) :=
  Async.calls (guardWorld saml db)
    (userCanCreateTeamGroupMapping user organizationId teamId).

End Guard.
Arguments GuardCall : clear implicits.

(** ** Dates, as the bookings view uses [dayjs] *)

Module Dayjs.

(** Modelled from the spec: the date library behind [@calcom/dayjs], which
    is outside this slice; only what the bookings view calls is modelled.
    An instant is a number of milliseconds since the epoch.  A time zone
    is taken as a fixed offset from UTC, in minutes; a [dayjs] value is
    an instant seen in such a zone. *)
Record t : Set := {
  valueOf : Z;
  utcOffset : Z
}.

Definition tz (instant : Z) (timeZone : Z) : t :=
  {| valueOf := instant; utcOffset := timeZone |}.

Definition msPerDay : Z := 86400000.

(** Days since the epoch to the proleptic Gregorian calendar, and back. *)
Definition civil_from_days (z : Z) : Z * Z * Z :=
  let z := z + 719468 in
  let era := z / 146097 in
  let doe := z - era * 146097 in
  let yoe := (doe - doe / 1460 + doe / 36524 - doe / 146096) / 365 in
  let y := yoe + era * 400 in
  let doy := doe - (365 * yoe + yoe / 4 - yoe / 100) in
  let mp := (5 * doy + 2) / 153 in
  let d := doy - (153 * mp + 2) / 5 + 1 in
  let m := if mp <? 10 then mp + 3 else mp - 9 in
  (if m <=? 2 then y + 1 else y, m, d).

Definition days_from_civil (y m d : Z) : Z :=
  let y := if m <=? 2 then y - 1 else y in
  let era := y / 400 in
  let yoe := y - era * 400 in
  let doy := (153 * (if 2 <? m then m - 3 else m + 9) + 2) / 5 + d - 1 in
  let doe := yoe * 365 + yoe / 4 - yoe / 100 + doy in
  era * 146097 + doe - 719468.

Definition localDay (d : t) : Z := (valueOf d + utcOffset d * 60000) / msPerDay.
Definition year (d : t) : Z := (civil_from_days (localDay d)).1.1.
Definition month (d : t) : Z := (civil_from_days (localDay d)).1.2.
Definition date (d : t) : Z := (civil_from_days (localDay d)).2.

(** [String(n).padStart(width, "0")] *)
Definition padStart (n : Z) (width : nat) : string :=
  let s := pretty n in
  String.app (string_of_list_ascii (replicate (width - String.length s) "0"%char)) s.

(** [format("YYYY-MM")] and [format("YYYY-MM-DD")] *)
Definition monthKeyOf (y m : Z) : string :=
  String.app (padStart y 4) (String.app "-" (padStart m 2)).
Definition format_YYYY_MM (d : t) : string := monthKeyOf (year d) (month d).
Definition format_YYYY_MM_DD (d : t) : string :=
  String.app (format_YYYY_MM d) (String.app "-" (padStart (date d) 2)).

(** [startOf("month")] and [endOf("month")]: the first and the last
    millisecond of the month in the value's own zone. *)
Definition startOf_month (d : t) : t :=
  {| valueOf := days_from_civil (year d) (month d) 1 * msPerDay - utcOffset d * 60000;
     utcOffset := utcOffset d |}.
Definition endOf_month (d : t) : t :=
  let next :=
    if month d =? 12 then days_from_civil (year d + 1) 1 1
    else days_from_civil (year d) (month d + 1) 1 in
  {| valueOf := next * msPerDay - utcOffset d * 60000 - 1;
     utcOffset := utcOffset d |}.

Definition isAfter (a b : t) : bool := valueOf b <? valueOf a.
Definition isBefore (a b : t) : bool := valueOf a <? valueOf b.

Definition monthNames : list string :=
  ["January"; "February"; "March"; "April"; "May"; "June"; "July";
   "August"; "September"; "October"; "November"; "December"].

Definition digit (c : ascii) : option nat :=
  let n := nat_of_ascii c in
  if bool_decide (48 <= n <= 57)%nat then Some (n - 48)%nat else None.

Fixpoint number (acc : nat) (s : string) : option nat :=
  match s with
  | EmptyString => Some acc
  | String c s => d ← digit c; number (10 * acc + d) s
  end.

(** [dayjs(key, "YYYY-MM").format("MMMM YYYY")] on a key that
    [format("YYYY-MM")] produced. *)
Definition format_MMMM_YYYY (key : string) : string :=
  match number 0 (substring 5 2 key) with
  | Some (S m) =>
      match monthNames !! m with
      | Some name => String.app name (String.app " " (substring 0 4 key))
      | None => "Invalid Date"
      end
  | _ => "Invalid Date"
  end.

End Dayjs.

(** ** Plain objects used as dictionaries *)

Module JsObject.

(** Own properties in insertion order.  The keys stored here are
    recurring ids and ["YYYY-MM"] month keys. *)
Definition t (V : Type) : Type := list (string * V).

Definition empty {V} : t V := [].

(** The own property [key] of [o], if it has one: what [o[key]] gives for
    a key that is an own property of [o] or that names nothing [o]
    inherits. *)
Fixpoint getOwn {V} (key : string) (o : t V) : option V :=
  match o with
  | [] => None
  | (k, v) :: o => if decide (k = key) then Some v else getOwn key o
  end.

(** [o[key] = v] for a key that becomes or is an own property: an existing
    property keeps its place, a new one goes last. *)
Fixpoint set {V} (key : string) (v : V) (o : t V) : t V :=
  match o with
  | [] => [(key, v)]
  | (k, v') :: o => if decide (k = key) then (k, v) :: o else (k, v') :: set key v o
  end.

Definition keys {V} (o : t V) : list string := map fst o.
Definition values {V} (o : t V) : list V := map snd o.

(** *** What an object made by [{}] inherits *)

Definition method (name : string) (length : Z) : string * Z := (name, length).

(** The function-valued properties of [Object.prototype], each with the
    value of its [length] (ECMAScript 2023, Annex B included).  Its one
    other property is the accessor ["__proto__"]. *)
Definition objectPrototype : t Z :=
  [ method "constructor" 1; method "hasOwnProperty" 1; method "isPrototypeOf" 1;
    method "propertyIsEnumerable" 1; method "toLocaleString" 0; method "toString" 0;
    method "valueOf" 0; method "__defineGetter__" 2; method "__defineSetter__" 2;
    method "__lookupGetter__" 1; method "__lookupSetter__" 1 ].

(** The same for [Array.prototype]. *)
Definition arrayPrototype : t Z :=
  [ method "at" 1; method "concat" 1; method "constructor" 1; method "copyWithin" 2;
    method "entries" 0; method "every" 1; method "fill" 1; method "filter" 1;
    method "find" 1; method "findIndex" 1; method "findLast" 1;
    method "findLastIndex" 1; method "flat" 0; method "flatMap" 1; method "forEach" 1;
    method "includes" 1; method "indexOf" 1; method "join" 1; method "keys" 0;
    method "lastIndexOf" 1; method "map" 1; method "pop" 0; method "push" 1;
    method "reduce" 1; method "reduceRight" 1; method "reverse" 0; method "shift" 0;
    method "slice" 2; method "some" 1; method "sort" 1; method "splice" 2;
    method "toLocaleString" 0; method "toReversed" 0; method "toSorted" 1;
    method "toSpliced" 2; method "toString" 0; method "unshift" 1; method "values" 0;
    method "with" 2 ].

(** An object made by [{}] and used as a dictionary of arrays: its own
    properties and its prototype, which is [Object.prototype] ([None]) until
    an assignment to ["__proto__"] puts an array in its place
    ([Some items]). *)
Record Dictionary (A : Type) : Type := {
  own : t (list A);
  proto : option (list A)
}.
Arguments own {A} _.
Arguments proto {A} _.

Definition emptyDictionary {A} : Dictionary A := {| own := empty; proto := None |}.

(** What [o[key]] can be: an array that the program stored, an inherited
    function (with its [length]), some other inherited value (one without a
    [length]: [Object.prototype] itself, a number, an element of the array
    that is the prototype), or [undefined]. *)
Inductive Value (A : Type) : Type :=
| array (items : list A)
| function (length : Z)
| other
| undefined.
Arguments array {A} items.
Arguments function {A} length.
Arguments other {A}.
Arguments undefined {A}.

(** [key] is the index of an element of [items]. *)
Definition isIndex {A} (key : string) (items : list A) : bool :=
  match Dayjs.number 0 key with
  | Some i => bool_decide (pretty i = key /\ (i < length items)%nat)
  | None => false
  end.

(** The lookup of [key] along the prototype chain, past the own
    properties: the array that is the prototype if there is one (its
    [length] and its elements), then [Array.prototype], and at the end
    [Object.prototype]. *)
Definition inherited {A} (proto : option (list A)) (key : string) : Value A :=
  let fromObject :=
    match getOwn key objectPrototype with
    | Some length => function length
    | None => undefined
    end in
  match proto with
  | None => fromObject
  | Some items =>
      if bool_decide (key = "length") || isIndex key items then other
      else
        match getOwn key arrayPrototype with
        | Some length => function length
        | None => fromObject
        end
  end.

(** [o[key]] *)
Definition get {A} (key : string) (o : Dictionary A) : Value A :=
  if decide (key = "__proto__") then
    match proto o with
    | Some items => array items
    | None => other
    end
  else
    match getOwn key (own o) with
    | Some items => array items
    | None => inherited (proto o) key
    end.

(** [o[key] = items]: the setter of ["__proto__"] makes the array the
    prototype of [o]; under every other key the array becomes an own
    property (what [o] inherits under that key is writable). *)
Definition assign {A} (key : string) (items : list A) (o : Dictionary A) : Dictionary A :=
  if decide (key = "__proto__") then {| own := own o; proto := Some items |}
  else {| own := set key items (own o); proto := proto o |}.

End JsObject.

(** ** The bookings view: rows of the list *)

Inductive BookingListingStatus : Set :=
| upcoming | recurring | past | cancelled | unconfirmed.

#[global] Instance BookingListingStatus_eq_dec : EqDecision BookingListingStatus.
Proof. solve_decision. Defined.

(** The fields of a booking that the grouping reads. *)
Record BookingOutput : Set := {
  booking_id : Z;
  startTime : Z;
  recurringEventId : option string
}.

Record RecurringInfo : Set := {
  info_recurringEventId : option string;
  info_count : Z
}.

#[global] Instance BookingOutput_eq_dec : EqDecision BookingOutput.
Proof. solve_decision. Defined.

Inductive RowData : Set :=
| data (booking : BookingOutput) (isToday : bool) (recurringInfo : option RecurringInfo)
| separator (label : string).

Record QueryData : Set := {
  bookings : list BookingOutput;
  recurringInfo : list RecurringInfo;
  totalCount : Z
}.

Record Grouped : Type := {
  today : list RowData;
  currentMonth : list RowData;
  monthBuckets : JsObject.t (list RowData)
}.

(** Truthiness of a [string | null]: the empty string counts as absent. *)
Definition truthyString (s : option string) : option string :=
  match s with
  | Some s => if decide (s = ""%string) then None else Some s
  | None => None
  end.

(** How a step that may throw ends; the one error of this code is the
    [TypeError] of a call to something that is not a function. *)
Inductive Completion (A : Type) : Type :=
| Normal (value : A)
| TypeError.
Arguments Normal {A} value.
Arguments TypeError {A}.

(** The callback given to [Array.prototype.filter]; [shownBookings] is the
    dictionary it closes over and updates.  [shownBookings[id].push(booking)]
    appends to the array found under the id, where it is. *)
Definition filterBookings (status : BookingListingStatus)
    (shownBookings : JsObject.Dictionary BookingOutput) (booking : BookingOutput)
  : Completion (bool * JsObject.Dictionary BookingOutput) :=
  match status with
  | recurring | unconfirmed | cancelled =>
      match truthyString (recurringEventId booking) with
      | None => Normal (true, shownBookings)
      | Some rid =>
          match JsObject.get rid shownBookings with
          | JsObject.array shown =>
              if (0 <? length shown)%nat
              then Normal (false, JsObject.assign rid (shown ++ [booking]) shownBookings)
              else Normal (true, JsObject.assign rid [booking] shownBookings)
          | JsObject.function length =>
              if 0 <? length then TypeError
              else Normal (true, JsObject.assign rid [booking] shownBookings)
          | JsObject.other | JsObject.undefined =>
              Normal (true, JsObject.assign rid [booking] shownBookings)
          end
      end
  | _ => Normal (true, shownBookings)
  end.

(** [array.filter(callback)] for a callback with state that may throw. *)
Fixpoint filterWith {S A} (callback : S -> A -> Completion (bool * S)) (s : S) (l : list A)
  : Completion (list A * S) :=
  match l with
  | [] => Normal ([], s)
  | x :: l =>
      match callback s x with
      | TypeError => TypeError
      | Normal (keep, s) =>
          match filterWith callback s l with
          | TypeError => TypeError
          | Normal (kept, s) => Normal (if keep then x :: kept else kept, s)
          end
      end
  end.

(** [query.data.bookings.filter(filterBookings)] *)
Definition keptBookings (status : BookingListingStatus) (bookings : list BookingOutput)
  : Completion (list BookingOutput) :=
  match filterWith (filterBookings status) JsObject.emptyDictionary bookings with
  | Normal (kept, _) => Normal kept
  | TypeError => TypeError
  end.

Definition sameRecurringEventId (a b : option string) : bool := bool_decide (a = b).

(** One round of the [forEach] over the kept bookings.  [monthKey] is a
    "YYYY-MM" string; it contains a hyphen, which no name inherited from
    [Object.prototype] does (lemma [monthKey_names_nothing_inherited]), so
    [monthBuckets[monthKey]] is the own property or [undefined]. *)
Definition placeBooking (timeZone : Z) (now : Dayjs.t) (recurringInfo : list RecurringInfo)
    (acc : Grouped) (booking : BookingOutput) : Grouped :=
  let today_ := Dayjs.format_YYYY_MM_DD now in
  let currentMonthStart := Dayjs.startOf_month now in
  let currentMonthEnd := Dayjs.endOf_month now in
  let bookingDate := Dayjs.tz (startTime booking) timeZone in
  let bookingDateStr := Dayjs.format_YYYY_MM_DD bookingDate in
  let monthKey := Dayjs.format_YYYY_MM bookingDate in
  let rowData :=
    data booking (bool_decide (bookingDateStr = today_))
      (find (fun info => sameRecurringEventId (info_recurringEventId info)
                           (recurringEventId booking)) recurringInfo) in
  if bool_decide (bookingDateStr = today_) then
    {| today := today acc ++ [rowData];
       currentMonth := currentMonth acc;
       monthBuckets := monthBuckets acc |}
  else if Dayjs.isAfter bookingDate currentMonthStart
          && Dayjs.isBefore bookingDate currentMonthEnd then
    {| today := today acc;
       currentMonth := currentMonth acc ++ [rowData];
       monthBuckets := monthBuckets acc |}
  else if Dayjs.isAfter bookingDate currentMonthEnd then
    {| today := today acc;
       currentMonth := currentMonth acc;
       monthBuckets :=
         JsObject.set monthKey
           (default [] (JsObject.getOwn monthKey (monthBuckets acc)) ++ [rowData])
           (monthBuckets acc) |}
  else acc.

Definition noBookings : Grouped :=
  {| today := []; currentMonth := []; monthBuckets := JsObject.empty |}.

(** [groupedBookings]; [instant] is what [dayjs()] reads from the clock and
    [timeZone] is [user?.timeZone]. *)
Definition groupedBookings (timeZone : Z) (instant : Z) (status : BookingListingStatus)
    (query_data : option QueryData) : Completion Grouped :=
  match query_data with
  | None => Normal noBookings
  | Some query_data =>
      let now := Dayjs.tz instant timeZone in
      match keptBookings status (bookings query_data) with
      | Normal kept =>
          Normal (fold_left (placeBooking timeZone now (recurringInfo query_data))
                    kept noBookings)
      | TypeError => TypeError
      end
  end.

Definition flatData (groupedBookings : Grouped) : list RowData :=
  currentMonth groupedBookings ++ concat (JsObject.values (monthBuckets groupedBookings)).

Definition bookingsToday (groupedBookings : Grouped) : list RowData :=
  today groupedBookings.

(** [Object.keys(monthBuckets).sort()]: the default sort orders strings by
    their code units. *)
Definition sortedMonthKeys (groupedBookings : Grouped) : list string :=
  merge_sort String.le (JsObject.keys (monthBuckets groupedBookings)).

(** [finalData]; [t] is the translation function of the locale.  The keys
    it looks up are those that [Object.keys] lists: own properties. *)
Definition finalData (t : string -> string) (status : BookingListingStatus)
    (groupedBookings : Grouped) : list RowData :=
  if bool_decide (status <> upcoming) then flatData groupedBookings
  else
    let merged := [] in
    let merged :=
      if (0 <? length (today groupedBookings))%nat
      then merged ++ separator (t "today") :: today groupedBookings
      else merged in
    let merged :=
      if (0 <? length (currentMonth groupedBookings))%nat
      then merged ++ separator (t "this_month") :: currentMonth groupedBookings
      else merged in
    fold_left
      (fun merged monthKey =>
         match JsObject.getOwn monthKey (monthBuckets groupedBookings) with
         | Some bookings =>
             if (0 <? length bookings)%nat
             then merged ++ separator (Dayjs.format_MMMM_YYYY monthKey) :: bookings
             else merged
         | None => merged
         end)
      (sortedMonthKeys groupedBookings) merged.

(** ** The helpers of the second revision of the resolver file *)

(** The three functions the second revision declares above
    [getAccessibleUsers] and does not call. *)
Module Resolver2Helpers.

(** [memberships.reduce(...)]: of a membership only [teamId] and [userId]
    are read. *)
Definition getAllOrganizationMemberships (memberships : list Membership) (orgId : Z)
  : Async.t MembershipCall (list Z) :=
  mret (fold_left
          (fun acc membership =>
             if teamId membership =? orgId then acc ++ [userId membership] else acc)
          memberships []).

Definition getAllAdminMemberships (userId : Z)
  : Async.t MembershipCall (list Membership) :=
  Async.await (membership_findMany
    {| where_userId := Some userId;
       where_userId_in := None;
       where_teamId := None;
       where_role_in := Some [OWNER; ADMIN];
       where_accepted := Some true;
       where_team_isOrganization := None |}).

Definition getAllOrganizationMembers (organizationId : Z)
  : Async.t MembershipCall (list Membership) :=
  Async.await (membership_findMany
    {| where_userId := None;
       where_userId_in := None;
       where_teamId := Some organizationId;
       where_role_in := None;
       where_accepted := Some true;
       where_team_isOrganization := None |}).

End Resolver2Helpers.

(** ** The rest of the bookings view *)

(** [viewParser]: the [view] query parameter. *)
Inductive BookingsView : Set := list_view | calendar_view.

Module viewParser.

Definition parse (value : string) : BookingsView :=
  if decide (value = "calendar"%string) then calendar_view else list_view.

Definition serialize (value : BookingsView) : string :=
  match value with
  | list_view => "list"
  | calendar_view => "calendar"
  end.

End viewParser.

(** The message of the toast in [setLocationMutation]'s [onError]:
    [errorMessages[code] || t("location_update_failed")], where [code] is
    [e.data?.code] (the key ["undefined"] when it is missing).  [code] is
    one of the error codes of tRPC, upper-case names of which none is a
    property that [errorMessages] inherits: the lookup is of an own
    property. *)
Definition locationErrorMessage (t : string -> string) (code : option string)
    (e_message : string) : string :=
  let errorMessages : JsObject.t string :=
    [ ("UNAUTHORIZED"%string, t "you_are_unauthorized_to_make_this_change_to_the_booking");
      ("BAD_REQUEST"%string, e_message) ] in
  match truthyString (JsObject.getOwn (default "undefined"%string code) errorMessages) with
  | Some message => message
  | None => t "location_update_failed"
  end.

(** [row.type === "data"] *)
Definition isData (row : RowData) : bool :=
  match row with
  | data _ _ _ => true
  | separator _ => false
  end.

(** [handleRowClick]: the selected booking after a click on [row]. *)
Definition handleRowClick (selectedBooking : option BookingOutput) (row : RowData)
  : option BookingOutput :=
  match row with
  | data booking _ _ => Some booking
  | separator _ => selectedBooking
  end.

(** [finalData.filter((row) => row.type === "data")], each row by its
    booking: the navigation reads nothing else of a data row. *)
Fixpoint dataRows (finalData : list RowData) : list BookingOutput :=
  match finalData with
  | [] => []
  | data booking _ _ :: rows => booking :: dataRows rows
  | separator _ :: rows => dataRows rows
  end.

(** [array.findIndex(callback)]: the index of the first element the
    callback accepts, [-1] when there is none. *)
Fixpoint findIndex {A} (callback : A -> bool) (l : list A) : Z :=
  match l with
  | [] => -1
  | x :: l =>
      if callback x then 0
      else let i := findIndex callback l in if i =? -1 then -1 else i + 1
  end.

(** What [bookingNavigation] holds.  A callback is given by the booking it
    hands to [setSelectedBooking]; [None] stands for [undefined]. *)
Record Navigation : Set := {
  hasPrevious : bool;
  hasNext : bool;
  onPrevious : option BookingOutput;
  onNext : option BookingOutput
}.

Definition noNavigation : Navigation :=
  {| hasPrevious := false; hasNext := false; onPrevious := None; onNext := None |}.

Definition bookingNavigation (selectedBooking : option BookingOutput)
    (finalData : list RowData) : Navigation :=
  match selectedBooking with
  | None => noNavigation
  | Some selectedBooking =>
      let dataRows := dataRows finalData in
      let currentIndex :=
        findIndex (fun row => booking_id row =? booking_id selectedBooking) dataRows in
      if currentIndex =? -1 then noNavigation
      else
        let hasPrevious := 0 <? currentIndex in
        let hasNext := currentIndex <? Z.of_nat (length dataRows) - 1 in
        {| hasPrevious := hasPrevious;
           hasNext := hasNext;
           onPrevious :=
             if hasPrevious then dataRows !! Z.to_nat (currentIndex - 1) else None;
           onNext :=
             if hasNext then dataRows !! Z.to_nat (currentIndex + 1) else None |}
  end.

(** ** BookingsList.tsx *)

(** [rowClassName]: [index] and [original] are [row.index] and
    [row.original]; [allRows] are the rows of the table's row model, given
    by their originals. *)
Definition rowClassName (allRows : list RowData) (index : nat) (original : RowData)
  : string :=
  let isSeparatorRow := negb (isData original) in
  if isSeparatorRow then
    let isFirstRow := (index =? 0)%nat in
    if isFirstRow then "!bg-muted" else "!bg-muted border-subtle border-t"
  else
    let nextRow := allRows !! (index + 1)%nat in
    let isNextRowSeparator :=
      match nextRow with
      | Some nextRow => negb (isData nextRow)
      | None => true
      end in
    if isNextRowSeparator then "!border-b-0" else "".

(** ** Vocabulary of the statements *)

(** [m] gives [adminId] administrative scope: a membership of that user
    with role OWNER or ADMIN in a team flagged as an organization. *)
Definition isOrganizationAdmin (db : Store) (adminId : Z) (m : Membership) : bool :=
  (userId m =? adminId)
  && match role m with OWNER | ADMIN => true | MEMBER => false end
  && match teamOf db m with Some t => isOrganization t | None => false end.

(** [u] has an accepted membership in the team [orgId]. *)
Definition acceptedMemberOf (db : Store) (orgId : Z) (u : Z) : Prop :=
  exists m, m ∈ memberships db /\ userId m = u /\ teamId m = orgId /\ accepted m = true.

(** The lookups of the admin's membership, as the two revisions write them. *)
Definition adminLookup1 (adminId : Z) : MembershipWhere :=
  {| where_userId := Some adminId;
     where_userId_in := None;
     where_teamId := None;
     where_role_in := Some [OWNER; ADMIN];
     where_accepted := None;
     where_team_isOrganization := Some true |}.

Definition adminLookup2 (adminId : Z) : MembershipWhere :=
  {| where_userId := Some adminId;
     where_userId_in := None;
     where_teamId := None;
     where_role_in := Some [OWNER; ADMIN];
     where_accepted := Some true;
     where_team_isOrganization := Some true |}.

(** A section of the list: nothing for an empty bucket, otherwise a
    separator row with the label followed by the bucket's rows. *)
Definition sectionRows (label : string) (rows : list RowData) : list RowData :=
  match rows with
  | [] => []
  | _ :: _ => separator label :: rows
  end.

(** The rows stored under a month key (none when the key is absent). *)
Definition monthRows (g : Grouped) (monthKey : string) : list RowData :=
  default [] (JsObject.getOwn monthKey (monthBuckets g)).

(** The date and the month key of a booking's start, in the given zone. *)
Definition dateOf (timeZone : Z) (b : BookingOutput) : string :=
  Dayjs.format_YYYY_MM_DD (Dayjs.tz (startTime b) timeZone).

Definition monthKeyOfBooking (timeZone : Z) (b : BookingOutput) : string :=
  Dayjs.format_YYYY_MM (Dayjs.tz (startTime b) timeZone).

(** The three tests of the grouping loop. *)
Definition startsToday (timeZone : Z) (now : Dayjs.t) (b : BookingOutput) : bool :=
  bool_decide (dateOf timeZone b = Dayjs.format_YYYY_MM_DD now).

Definition insideCurrentMonth (timeZone : Z) (now : Dayjs.t) (b : BookingOutput) : bool :=
  Dayjs.isAfter (Dayjs.tz (startTime b) timeZone) (Dayjs.startOf_month now)
  && Dayjs.isBefore (Dayjs.tz (startTime b) timeZone) (Dayjs.endOf_month now).

Definition afterCurrentMonth (timeZone : Z) (now : Dayjs.t) (b : BookingOutput) : bool :=
  Dayjs.isAfter (Dayjs.tz (startTime b) timeZone) (Dayjs.endOf_month now).

(** The data row the loop builds for a booking. *)
Definition rowOf (timeZone : Z) (now : Dayjs.t) (infos : list RecurringInfo)
    (b : BookingOutput) : RowData :=
  data b (startsToday timeZone now b)
    (find (fun info => sameRecurringEventId (info_recurringEventId info)
                         (recurringEventId b)) infos).

(** A row is in no bucket at all. *)
Definition inNoBucket (g : Grouped) (row : RowData) : Prop :=
  (row ∉ today g) /\ (row ∉ currentMonth g) /\ forall monthKey, row ∉ monthRows g monthKey.

(** The statuses for which recurring instances are collapsed. *)
Definition dedupStatus (status : BookingListingStatus) : Prop :=
  status = recurring \/ status = unconfirmed \/ status = cancelled.

(** [b] is an instance of the recurring series [rid]. *)
Definition inSeries (rid : string) (b : BookingOutput) : Prop :=
  recurringEventId b = Some rid.

(** [b] counts as having no recurring id: it is null, or the empty string. *)
Definition noSeries (b : BookingOutput) : Prop :=
  truthyString (recurringEventId b) = None.

#[global] Instance inSeries_dec rid b : Decision (inSeries rid b).
Proof. unfold inSeries. apply _. Defined.

#[global] Instance noSeries_dec b : Decision (noSeries b).
Proof. unfold noSeries. apply _. Defined.

(** The series [rid] already has a shown booking: [shownBookings[rid]] is
    an array that is not empty. *)
Definition seen (shownBookings : JsObject.Dictionary BookingOutput) (rid : string) : bool :=
  match JsObject.get rid shownBookings with
  | JsObject.array shown => (0 <? length shown)%nat
  | _ => false
  end.

(** The bookings recorded under [rid]: the array that [shownBookings[rid]]
    is, and none when it is no array. *)
Definition recorded (shownBookings : JsObject.Dictionary BookingOutput) (rid : string)
  : list BookingOutput :=
  match JsObject.get rid shownBookings with
  | JsObject.array shown => shown
  | _ => []
  end.

(** [shownBookings[rid]] is a function with a positive [length]: the
    callback takes it for a non-empty array and calls its [push]. *)
Definition clashes (shownBookings : JsObject.Dictionary BookingOutput) (rid : string) : bool :=
  match JsObject.get rid shownBookings with
  | JsObject.function length => 0 <? length
  | _ => false
  end.

(** The names that every object made by [{}] inherits. *)
Definition inheritedNames : list string :=
  "__proto__"%string :: JsObject.keys JsObject.objectPrototype.

(** The recurring id of [b], if it has one, is not such a name. *)
Definition plainSeriesId (b : BookingOutput) : Prop :=
  forall rid, recurringEventId b = Some rid -> rid ∉ inheritedNames.

#[global] Instance plainSeriesId_dec b : Decision (plainSeriesId b).
Proof.
  unfold plainSeriesId. destruct (recurringEventId b) as [rid|].
  - destruct (decide (rid ∈ inheritedNames)) as [Hin|Hout].
    + right. intros H. exact (H rid eq_refl Hin).
    + left. intros rid' [= <-]. exact Hout.
  - left. intros rid [=].
Defined.

(** The string has a hyphen in it. *)
Fixpoint hasHyphen (s : string) : bool :=
  match s with
  | EmptyString => false
  | String c s => bool_decide (c = "-"%char) || hasHyphen s
  end.

(** [p] holds of the [n] integers from [i] on. *)
Fixpoint allFrom (p : Z -> bool) (i : Z) (n : nat) : bool :=
  match n with
  | O => true
  | S n => p i && allFrom p (i + 1) n
  end.

(** What the four functions resolve to, read off the two queries. *)
Definition candidateRows (db : Store) (orgId : Z) (memberUserIds : list Z) : list Membership :=
  filter (fun m => membershipMatches db
            {| where_userId := None;
               where_userId_in := Some memberUserIds;
               where_teamId := Some orgId;
               where_role_in := None;
               where_accepted := Some true;
               where_team_isOrganization := None |} m = true) (memberships db).

Definition memberRows (db : Store) (orgId : Z) : list Membership :=
  filter (fun m => membershipMatches db
            {| where_userId := None;
               where_userId_in := None;
               where_teamId := Some orgId;
               where_role_in := None;
               where_accepted := Some true;
               where_team_isOrganization := None |} m = true) (memberships db).

(** Modelled from the spec: the membership store again, answering in an
    order of its own.  No query of the resolver gives an [orderBy];
    [arrange w rows] is the order in which the store returns the rows
    [rows] that meet [w], and [findFirst] answers with the first of them. *)
Definition prismaMembershipArranged
    (arrange : MembershipWhere -> list Membership -> list Membership) (db : Store)
  : forall X, MembershipCall X -> X :=
  fun X call =>
    match call in MembershipCall X return X with
    | membership_findFirst w =>
        head (arrange w (filter (fun m => membershipMatches db w m = true) (memberships db)))
    | membership_findMany w =>
        arrange w (filter (fun m => membershipMatches db w m = true) (memberships db))
    end.

(** The bookings that get a row for the given status: those the loop puts
    in a bucket, less the ones of today when the status is not "upcoming". *)
Definition emittedFor (status : BookingListingStatus) (timeZone : Z) (now : Dayjs.t)
    (b : BookingOutput) : bool :=
  if startsToday timeZone now b then bool_decide (status = upcoming)
  else insideCurrentMonth timeZone now b || afterCurrentMonth timeZone now b.

(** A list of rows made of sections: each a separator followed by at least
    one data row. *)
Inductive Sectioned : list RowData -> Prop :=
| sectioned_nil : Sectioned []
| sectioned_section label r rows rest :
    Forall (fun r => isData r = true) (r :: rows) ->
    Sectioned rest ->
    Sectioned (separator label :: r :: rows ++ rest).

(** The dictionary that [filterBookings] has filled when the filter is done. *)
Definition shownBookingsAfter (status : BookingListingStatus)
    (bookings : list BookingOutput) : Completion (JsObject.Dictionary BookingOutput) :=
  match filterWith (filterBookings status) JsObject.emptyDictionary bookings with
  | Normal (_, shownBookings) => Normal shownBookings
  | TypeError => TypeError
  end.

(** The buckets that the [forEach] fills from the kept bookings. *)
Definition bucketsOf (timeZone instant : Z) (infos : list RecurringInfo)
    (kept : list BookingOutput) : Grouped :=
  fold_left (placeBooking timeZone (Dayjs.tz instant timeZone) infos) kept noBookings.

(** ** Sample data *)

(** User 1 owns organization 10 but has not accepted the membership yet;
    user 2 is an accepted member, user 3 a pending one. *)
Definition pendingOwnerStore : Store :=
  {| memberships :=
       [ {| userId := 1; teamId := 10; role := OWNER; accepted := false |};
         {| userId := 2; teamId := 10; role := MEMBER; accepted := true |};
         {| userId := 3; teamId := 10; role := MEMBER; accepted := false |} ];
     teams :=
       [ {| id := 10; parentId := None; isOrganization := true |};
         {| id := 11; parentId := Some 10; isOrganization := false |};
         {| id := 21; parentId := Some 20; isOrganization := false |} ] |}.

(** The same organization with the owner's membership accepted. *)
Definition acceptedOwnerStore : Store :=
  {| memberships :=
       [ {| userId := 1; teamId := 10; role := OWNER; accepted := true |};
         {| userId := 2; teamId := 10; role := MEMBER; accepted := true |};
         {| userId := 3; teamId := 10; role := MEMBER; accepted := false |} ];
     teams := teams pendingOwnerStore |}.

(** An access check that lets every user into every organization, and one
    that lets nobody in. *)
Definition samlAllowsAll (user organizationId : Z) : OrganizationAccess :=
  {| access_message := "success"; access := true |}.

Definition samlDeniesAll (user organizationId : Z) : OrganizationAccess :=
  {| access_message := "not_authorized"; access := false |}.

(** The English locale, for the two keys the view looks up. *)
Definition t_en (key : string) : string :=
  if decide (key = "today"%string) then "Today"
  else if decide (key = "this_month"%string) then "This Month"
  else key.

(** Instants in UTC: [at_ y m d h] is [h] o'clock on the given day. *)
Definition at_ (y m d h : Z) : Z :=
  Dayjs.days_from_civil y m d * Dayjs.msPerDay + h * 3600000.

Definition utc : Z := 0.
Definition noon_15_june_2025 : Z := at_ 2025 6 15 12.

Definition booking (n : Z) (start : Z) (series : option string) : BookingOutput :=
  {| booking_id := n; startTime := start; recurringEventId := series |}.

(** Bookings for today, later this month, July and August 2025. *)
Definition b_today : BookingOutput := booking 1 (at_ 2025 6 15 15) None.
Definition b_june : BookingOutput := booking 2 (at_ 2025 6 20 10) None.
Definition b_august : BookingOutput := booking 3 (at_ 2025 8 3 9) None.
Definition b_july_1 : BookingOutput := booking 4 (at_ 2025 7 1 9) None.
Definition b_july_2 : BookingOutput := booking 5 (at_ 2025 7 10 9) None.

Definition summerBookings : QueryData :=
  {| bookings := [b_august; b_june; b_july_1; b_today; b_july_2];
     recurringInfo := [];
     totalCount := 5 |}.

Definition b_may : BookingOutput := booking 6 (at_ 2025 5 20 10) None.
Definition b_first_of_june : BookingOutput := booking 7 (at_ 2025 6 1 0) None.

(** A past-bookings page with a booking from last month. *)
Definition springBookings : QueryData :=
  {| bookings := [b_june; b_may; b_first_of_june];
     recurringInfo := [];
     totalCount := 3 |}.

(** A weekly series of three, the first instance today, and two bookings
    whose recurring id is the empty string. *)
Definition weekly_1 : BookingOutput := booking 11 (at_ 2025 6 15 15) (Some "weekly"%string).
Definition weekly_2 : BookingOutput := booking 12 (at_ 2025 6 22 15) (Some "weekly"%string).
Definition weekly_3 : BookingOutput := booking 13 (at_ 2025 6 29 15) (Some "weekly"%string).
Definition blank_1 : BookingOutput := booking 14 (at_ 2025 6 20 10) (Some ""%string).
Definition blank_2 : BookingOutput := booking 15 (at_ 2025 6 21 10) (Some ""%string).

Definition cancelledBookings : QueryData :=
  {| bookings := [weekly_1; weekly_2; weekly_3; blank_1; blank_2];
     recurringInfo := [];
     totalCount := 5 |}.

(** The buckets of the summer page when every booking is kept, and those of
    the spring page. *)
Definition summerBuckets : Grouped :=
  bucketsOf utc noon_15_june_2025 (recurringInfo summerBookings) (bookings summerBookings).

Definition springBuckets : Grouped :=
  bucketsOf utc noon_15_june_2025 (recurringInfo springBookings) (bookings springBookings).

(** The buckets of the page of cancelled bookings: of the weekly series
    only the first instance is kept. *)
Definition cancelledBuckets : Grouped :=
  bucketsOf utc noon_15_june_2025 (recurringInfo cancelledBookings)
    [weekly_1; blank_1; blank_2].

(** Bookings whose recurring id is the name of a property that every
    object inherits. *)
Definition named_constructor : BookingOutput :=
  booking 21 (at_ 2025 6 20 10) (Some "constructor"%string).
Definition named_toString_1 : BookingOutput :=
  booking 22 (at_ 2025 6 21 10) (Some "toString"%string).
Definition named_toString_2 : BookingOutput :=
  booking 23 (at_ 2025 6 28 10) (Some "toString"%string).

(** A page of cancelled bookings with such a series. *)
Definition constructorBookings : QueryData :=
  {| bookings := [b_june; named_constructor];
     recurringInfo := [];
     totalCount := 2 |}.

(** * Properties *)

(** ** The resolver *)

Section ResolverFacts.

Variable db : Store.

Lemma adminLookup1_matches adminId m :
  membershipMatches db (adminLookup1 adminId) m = isOrganizationAdmin db adminId m.
Proof.
  unfold membershipMatches, isOrganizationAdmin; simpl.
  destruct (userId m =? adminId), (role m), (teamOf db m) as [[? ? []]|];
    reflexivity.
Qed.

Lemma adminLookup2_matches adminId m :
  membershipMatches db (adminLookup2 adminId) m
  = isOrganizationAdmin db adminId m && accepted m.
Proof.
  unfold membershipMatches, isOrganizationAdmin; simpl.
  destruct (userId m =? adminId), (role m), (accepted m),
    (teamOf db m) as [[? ? []]|]; reflexivity.
Qed.

Lemma find_none_of_all_false {A} (p : A -> bool) (l : list A) :
  (forall x, x ∈ l -> p x = false) -> find p l = None.
Proof.
  induction l as [|x l IH]; intros Hall; simpl; [reflexivity|].
  rewrite (Hall x) by constructor.
  apply IH. intros y Hy. apply Hall. now constructor.
Qed.

Lemma find_agree {A} (p q : A -> bool) (l : list A) :
  (forall x, p x = q x) -> find p l = find q l.
Proof.
  intros Hpq. induction l as [|x l IH]; simpl; [reflexivity|].
  now rewrite Hpq, IH.
Qed.

(** The rows [findMany] returns for the candidate query. *)
Lemma candidates_found orgId (memberUserIds : list Z) u :
  u ∈ map userId
        (filter (fun m => membershipMatches db
                   {| where_userId := None;
                      where_userId_in := Some memberUserIds;
                      where_teamId := Some orgId;
                      where_role_in := None;
                      where_accepted := Some true;
                      where_team_isOrganization := None |} m = true)
                (memberships db))
  <-> u ∈ memberUserIds /\ acceptedMemberOf db orgId u.
Proof.
  unfold acceptedMemberOf. rewrite list_elem_of_fmap. split.
  - intros (m & -> & Hm). apply list_elem_of_filter in Hm as [Hw Hm].
    unfold membershipMatches in Hw; simpl in Hw.
    repeat (apply andb_prop in Hw as [Hw ?]).
    apply bool_decide_eq_true in Hw.
    split; [assumption|]. exists m. repeat split; try assumption.
    + now apply Z.eqb_eq.
    + now apply Bool.eqb_prop.
  - intros (Hu & m & Hm & <- & <- & Hacc). exists m. split; [reflexivity|].
    apply list_elem_of_filter. split; [|assumption].
    unfold membershipMatches; simpl.
    rewrite bool_decide_eq_true_2 by assumption.
    rewrite Z.eqb_refl, Hacc. reflexivity.
Qed.

End ResolverFacts.

(** C8.  An admin none of whose memberships is an OWNER or ADMIN membership
    in a team flagged as an organization gets the empty list from
    [getAccessibleUsers], whatever the candidate ids, and from
    [retrieveOrgScopedAccessibleUsers]; this holds in both revisions of the
    file, and the empty list is a returned value. *)
Theorem no_admin_scope_empty (db : Store) (adminId : Z) (memberUserIds : list Z) :
  (forall m, m ∈ memberships db -> isOrganizationAdmin db adminId m = false) ->
  Async.result (prismaMembership db) (Resolver1.getAccessibleUsers memberUserIds adminId) = []
  /\ Async.result (prismaMembership db) (Resolver1.retrieveOrgScopedAccessibleUsers adminId) = []
  /\ Async.result (prismaMembership db) (Resolver2.getAccessibleUsers memberUserIds adminId) = []
  /\ Async.result (prismaMembership db) (Resolver2.retrieveOrgScopedAccessibleUsers adminId) = [].
Proof.
  intros Hnone.
  assert (H1 : find (membershipMatches db (adminLookup1 adminId)) (memberships db) = None).
  { apply find_none_of_all_false. intros m Hm.
    rewrite adminLookup1_matches. now apply Hnone. }
  assert (H2 : find (membershipMatches db (adminLookup2 adminId)) (memberships db) = None).
  { apply find_none_of_all_false. intros m Hm.
    rewrite adminLookup2_matches, (Hnone m Hm). reflexivity. }
  unfold adminLookup1 in H1. unfold adminLookup2 in H2.
  unfold Async.result, Resolver1.getAccessibleUsers, Resolver1.retrieveOrgScopedAccessibleUsers,
    Resolver2.getAccessibleUsers, Resolver2.retrieveOrgScopedAccessibleUsers; simpl.
  rewrite H1, H2. simpl. repeat split.
Qed.

Lemma no_admin_scope_empty_witness :
  Async.result (prismaMembership pendingOwnerStore) (Resolver1.getAccessibleUsers [1; 2; 3] 2) = []
  /\ Async.result (prismaMembership pendingOwnerStore) (Resolver1.retrieveOrgScopedAccessibleUsers 2) = []
  /\ Async.result (prismaMembership pendingOwnerStore) (Resolver2.getAccessibleUsers [1; 2; 3] 2) = []
  /\ Async.result (prismaMembership pendingOwnerStore) (Resolver2.retrieveOrgScopedAccessibleUsers 2) = [].
Proof.
  apply (no_admin_scope_empty pendingOwnerStore 2 [1; 2; 3]).
  intros m Hm. cbn in Hm.
  repeat (apply elem_of_cons in Hm as [-> | Hm]; [reflexivity|]).
  now apply elem_of_nil in Hm.
Defined.

(** C9.  When the lookup of the admin's membership finds [am] and the
    candidate list is not empty, [getAccessibleUsers] returns exactly the
    candidate ids that have an accepted membership in the team of [am]:
    an id is in the result if and only if it is a candidate and an accepted
    member of that organization.  The statement is about membership in the
    result, not about its order. *)
Theorem accessible_users_are_accepted_candidates
    (db : Store) (adminUserId : Z) (memberUserIds : list Z) (am : Membership) :
  find (isOrganizationAdmin db adminUserId) (memberships db) = Some am ->
  memberUserIds <> [] ->
  forall u,
    u ∈ Async.result (prismaMembership db)
          (Resolver1.getAccessibleUsers memberUserIds adminUserId)
    <-> u ∈ memberUserIds /\ acceptedMemberOf db (teamId am) u.
Proof.
  intros Hadmin Hne u.
  assert (H1 : find (membershipMatches db (adminLookup1 adminUserId)) (memberships db)
               = Some am).
  { rewrite <- Hadmin. apply find_agree. intros m. apply adminLookup1_matches. }
  unfold adminLookup1 in H1.
  unfold Async.result, Resolver1.getAccessibleUsers; simpl.
  rewrite H1.
  destruct memberUserIds as [|c cs]; [congruence|]. simpl.
  apply candidates_found.
Qed.

Lemma accessible_users_are_accepted_candidates_witness :
  (2 ∈ Async.result (prismaMembership pendingOwnerStore)
         (Resolver1.getAccessibleUsers [3; 2; 7] 1)
   <-> 2 ∈ [3; 2; 7] /\ acceptedMemberOf pendingOwnerStore 10 2)
  /\ (3 ∈ Async.result (prismaMembership pendingOwnerStore)
            (Resolver1.getAccessibleUsers [3; 2; 7] 1)
      <-> 3 ∈ [3; 2; 7] /\ acceptedMemberOf pendingOwnerStore 10 3).
Proof.
  split;
    apply (accessible_users_are_accepted_candidates pendingOwnerStore 1 [3; 2; 7]
             {| userId := 1; teamId := 10; role := OWNER; accepted := false |});
    first [reflexivity | discriminate].
Defined.

(** The second revision filters the candidates the same way, once its own
    lookup (which asks for an accepted membership) has found [am]. *)
Lemma revision2_accessible_users
    (db : Store) (adminUserId : Z) (memberUserIds : list Z) (am : Membership) :
  find (fun m => isOrganizationAdmin db adminUserId m && accepted m) (memberships db)
    = Some am ->
  memberUserIds <> [] ->
  forall u,
    u ∈ Async.result (prismaMembership db)
          (Resolver2.getAccessibleUsers memberUserIds adminUserId)
    <-> u ∈ memberUserIds /\ acceptedMemberOf db (teamId am) u.
Proof.
  intros Hadmin Hne u.
  assert (H2 : find (membershipMatches db (adminLookup2 adminUserId)) (memberships db)
               = Some am).
  { rewrite <- Hadmin. apply find_agree. intros m. apply adminLookup2_matches. }
  unfold adminLookup2 in H2.
  unfold Async.result, Resolver2.getAccessibleUsers; simpl.
  rewrite H2.
  destruct memberUserIds as [|c cs]; [congruence|]. simpl.
  apply candidates_found.
Qed.

(** C5.  The two revisions of [getAccessibleUsers] differ.  Their first
    call is the same lookup except that only the second asks for
    [accepted: true]; and on a store where the admin's only OWNER/ADMIN
    membership in an organization is not accepted, the first returns a
    non-empty list and the second the empty list, so the two functions are
    not extensionally equal. *)
Theorem revisions_differ_on_pending_admin :
  (forall db memberUserIds adminUserId,
      head (Async.calls (prismaMembership db)
              (Resolver1.getAccessibleUsers memberUserIds adminUserId))
        = Some (Async.issued (membership_findFirst (adminLookup1 adminUserId)))
      /\ head (Async.calls (prismaMembership db)
                 (Resolver2.getAccessibleUsers memberUserIds adminUserId))
           = Some (Async.issued (membership_findFirst (adminLookup2 adminUserId)))
      /\ where_accepted (adminLookup1 adminUserId) = None
      /\ where_accepted (adminLookup2 adminUserId) = Some true)
  /\ (filter (fun m => isOrganizationAdmin pendingOwnerStore 1 m = true)
        (memberships pendingOwnerStore)
        = [ {| userId := 1; teamId := 10; role := OWNER; accepted := false |} ]
      /\ Async.result (prismaMembership pendingOwnerStore)
           (Resolver1.getAccessibleUsers [2; 3] 1) = [2]
      /\ Async.result (prismaMembership pendingOwnerStore)
           (Resolver2.getAccessibleUsers [2; 3] 1) = [])
  /\ ~ (forall db memberUserIds adminUserId,
          Async.result (prismaMembership db)
            (Resolver1.getAccessibleUsers memberUserIds adminUserId)
          = Async.result (prismaMembership db)
              (Resolver2.getAccessibleUsers memberUserIds adminUserId)).
Proof.
  split; [|split].
  - intros db memberUserIds adminUserId.
    unfold Async.calls, Resolver1.getAccessibleUsers, Resolver2.getAccessibleUsers.
    simpl.
    repeat match goal with
           | |- context [Async.exec ?h ?m] => destruct (Async.exec h m)
           end.
    repeat split.
  - repeat split.
  - intros Heq. specialize (Heq pendingOwnerStore [2; 3] 1). discriminate Heq.
Qed.

(** C6, as amended.  With an empty candidate list [getAccessibleUsers]
    returns the empty list, and the only call it makes on the membership
    store is the lookup of the admin's own membership: the [findMany] over
    the candidates is never issued.  Both revisions behave so. *)
Theorem empty_candidates_single_lookup (db : Store) (adminUserId : Z) :
  Async.exec (prismaMembership db) (Resolver1.getAccessibleUsers [] adminUserId)
    = ([], [Async.issued (membership_findFirst (adminLookup1 adminUserId))])
  /\ Async.exec (prismaMembership db) (Resolver2.getAccessibleUsers [] adminUserId)
     = ([], [Async.issued (membership_findFirst (adminLookup2 adminUserId))]).
Proof.
  unfold Resolver1.getAccessibleUsers, Resolver2.getAccessibleUsers, adminLookup1,
    adminLookup2; simpl.
  split.
  - destruct (find _ (memberships db)); reflexivity.
  - destruct (find _ (memberships db)); reflexivity.
Qed.

(** C6, as stated, fails: with no candidates and an admin who owns the
    organization, the result is empty but a query has gone to the
    membership store. *)
Lemma empty_candidates_query_issued :
  Async.result (prismaMembership acceptedOwnerStore) (Resolver1.getAccessibleUsers [] 1) = []
  /\ Async.calls (prismaMembership acceptedOwnerStore) (Resolver1.getAccessibleUsers [] 1)
     <> [].
Proof. split; [reflexivity | discriminate]. Qed.

(** ** The guard *)

Section GuardFacts.

Context {TrpcSessionUser : Type}.
Variable saml : TrpcSessionUser -> Z -> OrganizationAccess.
Variable db : Store.
Variable user : TrpcSessionUser.

Lemma team_found_in_organization teamId organizationId t :
  find (teamMatches {| where_id := Some teamId; where_parentId := Some organizationId |})
    (teams db) = Some t ->
  t ∈ teams db /\ id t = teamId /\ parentId t = Some organizationId.
Proof.
  intros Hfind. apply find_some in Hfind as [Hin Hm].
  unfold teamMatches in Hm; simpl in Hm.
  apply andb_prop in Hm as [Hid Hparent].
  apply Z.eqb_eq in Hid. apply bool_decide_eq_true in Hparent.
  split; [now apply list_elem_of_In | now split].
Qed.

Lemma guard_throws_only_400 organizationId teamId e :
  guardOutcome saml db user organizationId teamId = Thrown e -> statusCode e = 400.
Proof.
  unfold guardOutcome, Async.result, userCanCreateTeamGroupMapping.
  destruct (truthyNumber organizationId) as [org|]; simpl.
  - destruct (access (saml user org)); simpl.
    + destruct (truthyNumber teamId) as [team|]; simpl.
      * destruct (find _ (teams db)); simpl; intros [= <-]; reflexivity.
      * discriminate.
    + intros [= <-]; reflexivity.
  - intros [= <-]; reflexivity.
Qed.

End GuardFacts.

(** C4, as amended.  (a) With a null organization id the guard throws the
    400 error "Could not find organization id", for every user and team id.
    (b) With an organization id and a team id other than 0, the guard throws
    a 400 error unless the store has a team with that id whose parent is
    exactly that organization; a team with the right id and another parent
    does not help.  Every error the guard throws carries status 400.
    (c) When the guard returns, the object it returns carries the
    organization id it was given. *)
Theorem guard_bad_request_or_validated
    {TrpcSessionUser : Type} (saml : TrpcSessionUser -> Z -> OrganizationAccess)
    (db : Store) (user : TrpcSessionUser) :
  (forall teamId,
      guardOutcome saml db user None teamId
      = Thrown {| statusCode := 400; message := "Could not find organization id" |})
  /\ (forall organizationId teamId,
        teamId <> 0 ->
        ~ (exists t, t ∈ teams db /\ id t = teamId /\ parentId t = Some organizationId) ->
        exists e, guardOutcome saml db user (Some organizationId) (Some teamId) = Thrown e
                  /\ statusCode e = 400)
  /\ (forall orgId teamId r,
        guardOutcome saml db user orgId teamId = Returned r ->
        orgId = Some (organizationId r)).
Proof.
  split; [|split].
  - intros teamId. reflexivity.
  - intros organizationId teamId Hteam Hnone.
    destruct (guardOutcome saml db user (Some organizationId) (Some teamId)) as [r|e] eqn:Hout.
    + exfalso. apply Hnone.
      unfold guardOutcome, Async.result, userCanCreateTeamGroupMapping in Hout.
      simpl in Hout.
      destruct (organizationId =? 0); [discriminate|]. simpl in Hout.
      destruct (access (saml user organizationId)); [|discriminate]. simpl in Hout.
      destruct (Z.eqb_spec teamId 0) as [|_]; [contradiction|]. simpl in Hout.
      destruct (find _ (teams db)) as [t|] eqn:Hfind; [|discriminate].
      exists t. now apply team_found_in_organization.
    + exists e. split; [reflexivity|]. now apply guard_throws_only_400 in Hout.
  - intros orgId teamId r.
    unfold guardOutcome, Async.result, userCanCreateTeamGroupMapping.
    destruct orgId as [org|]; simpl; [|discriminate].
    destruct (org =? 0); simpl; [discriminate|].
    destruct (access (saml user org)); simpl; [|discriminate].
    destruct (truthyNumber teamId) as [team|]; simpl.
    + destruct (find _ (teams db)); simpl; [|discriminate].
      intros [= <-]; reflexivity.
    + intros [= <-]; reflexivity.
Qed.

Lemma guard_bad_request_or_validated_witness :
  guardOutcome samlAllowsAll pendingOwnerStore 1 None (Some 11)
    = Thrown {| statusCode := 400; message := "Could not find organization id" |}
  /\ (exists e, guardOutcome samlAllowsAll pendingOwnerStore 1 (Some 10) (Some 21) = Thrown e
                /\ statusCode e = 400)
  /\ Some 10 = Some (organizationId {| organizationId := 10 |}).
Proof.
  destruct (guard_bad_request_or_validated samlAllowsAll pendingOwnerStore 1)
    as (Hnull & Hteam & Hok).
  split; [apply Hnull | split].
  - apply Hteam; [lia|].
    intros (t & Hin & Hid & Hparent). cbn in Hin.
    repeat (apply elem_of_cons in Hin as [-> | Hin]; [discriminate|]).
    now apply elem_of_nil in Hin.
  - apply (Hok (Some 10) (Some 11)). reflexivity.
Defined.

(** C4, as stated, fails at team id 0: the call returns although the store
    has no team with id 0 under organization 10. *)
Lemma guard_zero_team_not_verified :
  guardOutcome samlAllowsAll pendingOwnerStore 1 (Some 10) (Some 0)
    = Returned {| organizationId := 10 |}
  /\ ~ (exists t, t ∈ teams pendingOwnerStore /\ id t = 0 /\ parentId t = Some 10).
Proof.
  split; [reflexivity|].
  intros (t & Hin & Hid & Hparent). cbn in Hin.
  repeat (apply elem_of_cons in Hin as [-> | Hin]; [discriminate|]).
  now apply elem_of_nil in Hin.
Qed.

(** C10.  The guard tests its arguments for truthiness.  With organization
    id 0 it throws the 400 error "Could not find organization id" and issues
    no call, exactly as with a null id.  With team id 0 it never looks at
    the team store: whenever the organization id is not 0 and the access
    check passes, it returns that organization id, and the access check is
    the only call it has issued. *)
Theorem guard_tests_truthiness
    {TrpcSessionUser : Type} (saml : TrpcSessionUser -> Z -> OrganizationAccess)
    (db : Store) (user : TrpcSessionUser) :
  (forall teamId,
      guardOutcome saml db user (Some 0) teamId
      = Thrown {| statusCode := 400; message := "Could not find organization id" |}
      /\ guardOutcome saml db user (Some 0) teamId = guardOutcome saml db user None teamId
      /\ guardCalls saml db user (Some 0) teamId = guardCalls saml db user None teamId
      /\ guardCalls saml db user (Some 0) teamId = [])
  /\ (forall orgId,
        orgId <> 0 ->
        access (saml user orgId) = true ->
        guardOutcome saml db user (Some orgId) (Some 0)
        = Returned {| organizationId := orgId |}
        /\ guardCalls saml db user (Some orgId) (Some 0)
           = [Async.issued (canAccessOrganization user orgId)]).
Proof.
  split.
  - intros teamId. repeat split.
  - intros orgId Hne Haccess.
    unfold guardOutcome, guardCalls, Async.result, Async.calls,
      userCanCreateTeamGroupMapping; simpl.
    destruct (Z.eqb_spec orgId 0) as [|_]; [contradiction|]. simpl.
    rewrite Haccess. simpl. split; reflexivity.
Qed.

Lemma guard_tests_truthiness_witness :
  guardOutcome samlAllowsAll pendingOwnerStore 1 (Some 0) (Some 11)
    = Thrown {| statusCode := 400; message := "Could not find organization id" |}
  /\ guardOutcome samlAllowsAll pendingOwnerStore 1 (Some 20) (Some 0)
     = Returned {| organizationId := 20 |}
  /\ guardCalls samlAllowsAll pendingOwnerStore 1 (Some 20) (Some 0)
     = [Async.issued (canAccessOrganization 1 20)].
Proof.
  destruct (guard_tests_truthiness samlAllowsAll pendingOwnerStore 1) as (Horg & Hteam).
  split; [apply (Horg (Some 11))|].
  apply (Hteam 20); [lia | reflexivity].
Defined.

(** ** Objects as dictionaries *)

Section JsObjectFacts.

Context {V : Type}.
Implicit Types (o : JsObject.t V) (k : string) (v : V).

Lemma get_set_eq o k v : JsObject.getOwn k (JsObject.set k v o) = Some v.
Proof.
  induction o as [|[k' v'] o IH]; simpl.
  - now rewrite decide_True.
  - destruct (decide (k' = k)) as [->|Hne]; simpl.
    + now rewrite decide_True.
    + now rewrite decide_False.
Qed.

Lemma get_set_ne o k k' v : k <> k' -> JsObject.getOwn k' (JsObject.set k v o) = JsObject.getOwn k' o.
Proof.
  intros Hne. induction o as [|[k0 v0] o IH]; simpl.
  - now rewrite decide_False.
  - destruct (decide (k0 = k)) as [->|Hk0]; simpl.
    + now rewrite !decide_False.
    + destruct (decide (k0 = k')); [reflexivity | exact IH].
Qed.

Lemma values_set_Forall (P : V -> Prop) o k v :
  P v -> Forall P (JsObject.values o) -> Forall P (JsObject.values (JsObject.set k v o)).
Proof.
  intros Hv. unfold JsObject.values.
  induction o as [|[k' v'] o IH]; simpl; intros Ho.
  - now repeat constructor.
  - inversion Ho as [|? ? Hv' Ho']; subst.
    destruct (decide (k' = k)); simpl; constructor; auto.
Qed.

Lemma get_in_values o k v : JsObject.getOwn k o = Some v -> v ∈ JsObject.values o.
Proof.
  unfold JsObject.values.
  induction o as [|[k' v'] o IH]; simpl; [discriminate|].
  destruct (decide (k' = k)).
  - intros [= ->]. constructor.
  - intros Hget. constructor. now apply IH.
Qed.

Lemma keys_set_NoDup o k v :
  NoDup (JsObject.keys o) -> NoDup (JsObject.keys (JsObject.set k v o)).
Proof.
  unfold JsObject.keys.
  assert (Hin : forall o k0, k0 ∈ map fst (JsObject.set k v o) -> k0 = k \/ k0 ∈ map fst o).
  { clear. intros o. induction o as [|[k' v'] o IH]; simpl; intros k0 Hk0.
    - apply elem_of_cons in Hk0 as [->|Hk0]; [now left | now apply elem_of_nil in Hk0].
    - destruct (decide (k' = k)) as [->|Hne]; simpl in Hk0.
      + now right.
      + apply elem_of_cons in Hk0 as [->|Hk0]; [right; constructor|].
        destruct (IH _ Hk0) as [->|Hin]; [now left | right; now constructor]. }
  induction o as [|[k' v'] o IH]; simpl; intros Hnd.
  - repeat constructor. apply not_elem_of_nil.
  - apply NoDup_cons in Hnd as [Hk' Hnd].
    destruct (decide (k' = k)) as [->|Hne]; simpl.
    + now apply NoDup_cons.
    + apply NoDup_cons. split; [|now apply IH].
      intros Hk. destruct (Hin _ _ Hk) as [->|Hk'']; [now apply Hne | now apply Hk'].
Qed.

End JsObjectFacts.

(** ** The order of month keys *)

Lemma allFrom_spec p i n x :
  allFrom p i n = true -> i <= x < i + Z.of_nat n -> p x = true.
Proof.
  revert i. induction n as [|n IH]; intros i Hall Hx; [lia|].
  simpl in Hall. apply andb_prop in Hall as [Hi Hall].
  destruct (Z.eq_dec x i) as [->|Hne]; [assumption|].
  apply (IH (i + 1)); [assumption | lia].
Qed.

Lemma ascii_compare_refl (c : ascii) : Ascii.compare c c = Eq.
Proof. unfold Ascii.compare. apply N.compare_refl. Qed.

Lemma string_compare_refl (s : string) : String.compare s s = Eq.
Proof. induction s as [|c s IH]; simpl; [reflexivity|]. now rewrite ascii_compare_refl. Qed.

Lemma string_compare_app_same (p s1 s2 : string) :
  String.compare (String.app p s1) (String.app p s2) = String.compare s1 s2.
Proof. induction p as [|c p IH]; simpl; [reflexivity|]. now rewrite ascii_compare_refl. Qed.

Lemma string_compare_app_lt (p1 p2 s1 s2 : string) :
  String.length p1 = String.length p2 ->
  String.compare p1 p2 = Lt ->
  String.compare (String.app p1 s1) (String.app p2 s2) = Lt.
Proof.
  revert p2. induction p1 as [|c1 p1 IH]; intros [|c2 p2]; simpl; try discriminate.
  intros [= Hlen]. destruct (Ascii.compare c1 c2); try discriminate; [|reflexivity].
  now apply IH.
Qed.

Lemma string_compare_lt_trans (s1 s2 s3 : string) :
  String.compare s1 s2 = Lt -> String.compare s2 s3 = Lt -> String.compare s1 s3 = Lt.
Proof.
  intros H12 H23.
  assert (Hle : String.le s1 s3).
  { transitivity s2; unfold String.le, String.leb; [now rewrite H12 | now rewrite H23]. }
  unfold String.le, String.leb in Hle.
  destruct (String.compare s1 s3) eqn:H13; [|reflexivity|contradiction].
  apply String.compare_eq_iff in H13 as ->.
  rewrite String.compare_antisym, H12 in H23. discriminate.
Qed.

(** Zero-padded numbers of a fixed width compare like the numbers. *)
Lemma padStart_check_4 :
  allFrom (fun i => (String.length (Dayjs.padStart i 4) =? 4)%nat
                    && String.ltb (Dayjs.padStart i 4) (Dayjs.padStart (i + 1) 4))
    0 (Z.to_nat 9999) = true.
Proof. vm_compute. reflexivity. Qed.

Lemma padStart_check_2 :
  allFrom (fun i => String.ltb (Dayjs.padStart i 2) (Dayjs.padStart (i + 1) 2))
    1 (Z.to_nat 11) = true.
Proof. vm_compute. reflexivity. Qed.

Lemma compare_of_steps (f : Z -> string) (lo hi : Z) :
  (forall i, lo <= i < hi -> String.compare (f i) (f (i + 1)) = Lt) ->
  forall a b, lo <= a <= hi -> lo <= b <= hi -> String.compare (f a) (f b) = (a ?= b).
Proof.
  intros Hstep.
  assert (Hlt : forall a b, lo <= a -> a < b -> b <= hi -> String.compare (f a) (f b) = Lt).
  { intros a b Ha Hab Hb.
    replace b with (a + 1 + Z.of_nat (Z.to_nat (b - a - 1))) in * by lia.
    induction (Z.to_nat (b - a - 1)) as [|n IH].
    - rewrite Z.add_0_r. apply Hstep. lia.
    - apply string_compare_lt_trans with (f (a + 1 + Z.of_nat n)); [apply IH; lia|].
      replace (a + 1 + Z.of_nat (S n)) with (a + 1 + Z.of_nat n + 1) by lia.
      apply Hstep. lia. }
  intros a b Ha Hb. destruct (Z.compare_spec a b) as [->|Hab|Hab].
  - apply string_compare_refl.
  - apply Hlt; lia.
  - rewrite String.compare_antisym, Hlt by lia. reflexivity.
Qed.

Lemma ltb_compare s1 s2 : String.ltb s1 s2 = true -> String.compare s1 s2 = Lt.
Proof. unfold String.ltb. now destruct (String.compare s1 s2). Qed.

(** For years of four digits, month keys compare like (year, month). *)
Lemma monthKey_compare (y1 m1 y2 m2 : Z) :
  0 <= y1 <= 9999 -> 0 <= y2 <= 9999 -> 1 <= m1 <= 12 -> 1 <= m2 <= 12 ->
  String.compare (Dayjs.monthKeyOf y1 m1) (Dayjs.monthKeyOf y2 m2)
  = match y1 ?= y2 with
    | Eq => m1 ?= m2
    | c => c
    end.
Proof.
  intros Hy1 Hy2 Hm1 Hm2. unfold Dayjs.monthKeyOf.
  assert (Hyear : forall a b, 0 <= a <= 9999 -> 0 <= b <= 9999 ->
            String.compare (Dayjs.padStart a 4) (Dayjs.padStart b 4) = (a ?= b)).
  { apply compare_of_steps. intros i Hi.
    pose proof (allFrom_spec _ _ _ i padStart_check_4 ltac:(lia)) as Hc.
    apply andb_prop in Hc as [_ Hc]. now apply ltb_compare. }
  assert (Hlen : forall a, 0 <= a <= 9999 -> String.length (Dayjs.padStart a 4) = 4%nat).
  { intros a Ha. destruct (Z.eq_dec a 9999) as [->|Hne]; [reflexivity|].
    pose proof (allFrom_spec _ _ _ a padStart_check_4 ltac:(lia)) as Hc.
    apply andb_prop in Hc as [Hc _]. now apply Nat.eqb_eq. }
  assert (Hmonth : forall a b, 1 <= a <= 12 -> 1 <= b <= 12 ->
            String.compare (Dayjs.padStart a 2) (Dayjs.padStart b 2) = (a ?= b)).
  { apply compare_of_steps. intros i Hi.
    pose proof (allFrom_spec _ _ _ i padStart_check_2 ltac:(lia)) as Hc.
    now apply ltb_compare. }
  destruct (Z.compare_spec y1 y2) as [->|Hlt|Hgt].
  - rewrite !string_compare_app_same. now apply Hmonth.
  - apply string_compare_app_lt.
    + now rewrite !Hlen.
    + rewrite Hyear by assumption. now apply Z.compare_lt_iff.
  - rewrite String.compare_antisym.
    rewrite string_compare_app_lt; [reflexivity| |].
    + now rewrite !Hlen.
    + rewrite Hyear by assumption. now apply Z.compare_lt_iff.
Qed.

(** ** The rows of the list *)

(** Pushing a section for every key, one after the other, appends the
    sections in that order. *)
Lemma month_sections_appended (g : Grouped) (monthKeys : list string) (merged : list RowData) :
  fold_left
    (fun merged monthKey =>
       match JsObject.getOwn monthKey (monthBuckets g) with
       | Some bookings =>
           if (0 <? length bookings)%nat
           then merged ++ separator (Dayjs.format_MMMM_YYYY monthKey) :: bookings
           else merged
       | None => merged
       end)
    monthKeys merged
  = merged ++ flat_map (fun monthKey =>
                 sectionRows (Dayjs.format_MMMM_YYYY monthKey) (monthRows g monthKey))
              monthKeys.
Proof.
  revert merged. induction monthKeys as [|k ks IH]; intros merged; simpl.
  - now rewrite app_nil_r.
  - rewrite IH. unfold monthRows at 2.
    destruct (JsObject.getOwn k (monthBuckets g)) as [[|row rows]|]; simpl.
    + reflexivity.
    + now rewrite <- app_assoc.
    + reflexivity.
Qed.

(** C1.  For status "upcoming" the rows are: the section labelled
    [t "today"] over the today bucket, then the section labelled
    [t "this_month"] over the current-month bucket, then one section per
    month key, labelled with that month, over that key's bucket -- where a
    section of an empty bucket is empty and a section of a non-empty bucket
    is its separator followed by its rows.  The month keys are taken in
    [sortedMonthKeys] order: the keys of [monthBuckets], rearranged into
    ascending order of the ["YYYY-MM"] strings; for years of four digits
    that order is the order of the months in time. *)
Theorem upcoming_rows_in_sections (t : string -> string) (g : Grouped) :
  finalData t upcoming g
  = sectionRows (t "today") (today g)
    ++ sectionRows (t "this_month") (currentMonth g)
    ++ flat_map (fun monthKey =>
                   sectionRows (Dayjs.format_MMMM_YYYY monthKey) (monthRows g monthKey))
                (sortedMonthKeys g)
  /\ sortedMonthKeys g ≡ₚ JsObject.keys (monthBuckets g)
  /\ StronglySorted String.le (sortedMonthKeys g)
  /\ (forall y1 m1 y2 m2,
        0 <= y1 <= 9999 -> 0 <= y2 <= 9999 -> 1 <= m1 <= 12 -> 1 <= m2 <= 12 ->
        String.le (Dayjs.monthKeyOf y1 m1) (Dayjs.monthKeyOf y2 m2)
        <-> y1 < y2 \/ (y1 = y2 /\ m1 <= m2)).
Proof.
  split; [|split; [|split]].
  - unfold finalData. rewrite bool_decide_eq_false_2 by (intros H; now apply H).
    rewrite month_sections_appended.
    destruct (today g) as [|r1 l1], (currentMonth g) as [|r2 l2]; simpl;
      try reflexivity.
    now rewrite <- app_assoc.
  - apply merge_sort_Permutation.
  - apply StronglySorted_merge_sort; apply _.
  - intros y1 m1 y2 m2 Hy1 Hy2 Hm1 Hm2.
    unfold String.le, String.leb.
    rewrite monthKey_compare by assumption.
    destruct (Z.compare_spec y1 y2) as [->|Hlt|Hgt].
    + destruct (Z.compare_spec m1 m2); simpl; intuition lia.
    + simpl. intuition lia.
    + simpl. intuition lia.
Qed.

(** ** The grouping loop *)

Section GroupingFacts.

Variable timeZone : Z.
Variable now : Dayjs.t.
Variable infos : list RecurringInfo.

Abbreviation place := (placeBooking timeZone now infos).
Abbreviation row := (rowOf timeZone now infos).

(** One round of the loop, in terms of its three tests. *)
Lemma place_unfold acc b :
  place acc b
  = if startsToday timeZone now b then
      {| today := today acc ++ [row b];
         currentMonth := currentMonth acc;
         monthBuckets := monthBuckets acc |}
    else if insideCurrentMonth timeZone now b then
      {| today := today acc;
         currentMonth := currentMonth acc ++ [row b];
         monthBuckets := monthBuckets acc |}
    else if afterCurrentMonth timeZone now b then
      {| today := today acc;
         currentMonth := currentMonth acc;
         monthBuckets :=
           JsObject.set (monthKeyOfBooking timeZone b)
             (monthRows acc (monthKeyOfBooking timeZone b) ++ [row b])
             (monthBuckets acc) |}
    else acc.
Proof.
  unfold placeBooking, rowOf, startsToday, insideCurrentMonth, afterCurrentMonth,
    monthRows, monthKeyOfBooking, dateOf.
  reflexivity.
Qed.

Lemma place_today acc b :
  startsToday timeZone now b = true ->
  place acc b = {| today := today acc ++ [row b];
                   currentMonth := currentMonth acc;
                   monthBuckets := monthBuckets acc |}.
Proof. intros H. rewrite place_unfold. now rewrite H. Qed.

Lemma place_currentMonth acc b :
  startsToday timeZone now b = false ->
  insideCurrentMonth timeZone now b = true ->
  place acc b = {| today := today acc;
                   currentMonth := currentMonth acc ++ [row b];
                   monthBuckets := monthBuckets acc |}.
Proof. intros H1 H2. rewrite place_unfold. now rewrite H1, H2. Qed.

Lemma place_month acc b :
  startsToday timeZone now b = false ->
  insideCurrentMonth timeZone now b = false ->
  afterCurrentMonth timeZone now b = true ->
  place acc b = {| today := today acc;
                   currentMonth := currentMonth acc;
                   monthBuckets :=
                     JsObject.set (monthKeyOfBooking timeZone b)
                       (monthRows acc (monthKeyOfBooking timeZone b) ++ [row b])
                       (monthBuckets acc) |}.
Proof. intros H1 H2 H3. rewrite place_unfold. now rewrite H1, H2, H3. Qed.

Lemma place_nowhere acc b :
  startsToday timeZone now b = false ->
  insideCurrentMonth timeZone now b = false ->
  afterCurrentMonth timeZone now b = false ->
  place acc b = acc.
Proof. intros H1 H2 H3. rewrite place_unfold. now rewrite H1, H2, H3. Qed.

(** The buckets after the loop: each is what it was before, followed by
    the rows of the bookings that pass its test, in the order of the list. *)
Lemma placed_buckets kept acc :
  let g := fold_left place kept acc in
  today g = today acc
            ++ map row (filter (fun b => startsToday timeZone now b = true) kept)
  /\ currentMonth g
     = currentMonth acc
       ++ map row (filter (fun b => startsToday timeZone now b = false
                                    /\ insideCurrentMonth timeZone now b = true) kept)
  /\ forall monthKey,
       monthRows g monthKey
       = monthRows acc monthKey
         ++ map row (filter (fun b => startsToday timeZone now b = false
                                      /\ insideCurrentMonth timeZone now b = false
                                      /\ afterCurrentMonth timeZone now b = true
                                      /\ monthKeyOfBooking timeZone b = monthKey) kept).
Proof.
  revert acc. induction kept as [|b kept IH]; intros acc; cbn [fold_left]; cbv zeta.
  - rewrite !filter_nil. cbn [map]. rewrite !app_nil_r.
    split; [reflexivity|split; [reflexivity|]].
    intros k. rewrite filter_nil. cbn [map]. now rewrite app_nil_r.
  - destruct (IH (place acc b)) as (Ht & Hc & Hm). clear IH.
    assert (Hcases :
      (startsToday timeZone now b = true)
      \/ (startsToday timeZone now b = false /\ insideCurrentMonth timeZone now b = true)
      \/ (startsToday timeZone now b = false /\ insideCurrentMonth timeZone now b = false
          /\ afterCurrentMonth timeZone now b = true)
      \/ (startsToday timeZone now b = false /\ insideCurrentMonth timeZone now b = false
          /\ afterCurrentMonth timeZone now b = false)).
    { destruct (startsToday timeZone now b), (insideCurrentMonth timeZone now b),
        (afterCurrentMonth timeZone now b); tauto. }
    destruct Hcases as [H1 | [(H1 & H2) | [(H1 & H2 & H3) | (H1 & H2 & H3)]]].
    + rewrite place_today in Ht, Hc, Hm |- * by assumption. cbn [today currentMonth monthBuckets] in Ht, Hc, Hm.
      split; [|split; [|intros k]]; rewrite filter_cons; destruct (decide _) as [Hp|Hp];
        try (exfalso; clear Ht Hc Hm; intuition congruence).
      * rewrite Ht. cbn [map]. now rewrite <- app_assoc.
      * exact Hc.
      * apply Hm.
    + rewrite place_currentMonth in Ht, Hc, Hm |- * by assumption. cbn [today currentMonth monthBuckets] in Ht, Hc, Hm.
      split; [|split; [|intros k]]; rewrite filter_cons; destruct (decide _) as [Hp|Hp];
        try (exfalso; clear Ht Hc Hm; intuition congruence).
      * exact Ht.
      * rewrite Hc. cbn [map]. now rewrite <- app_assoc.
      * apply Hm.
    + rewrite place_month in Ht, Hc, Hm |- * by assumption. cbn [today currentMonth monthBuckets] in Ht, Hc, Hm.
      split; [|split; [|intros k]]; rewrite filter_cons; destruct (decide _) as [Hp|Hp];
        try (exfalso; clear Ht Hc Hm; intuition congruence).
      * exact Ht.
      * exact Hc.
      * destruct Hp as (_ & _ & _ & <-).
        rewrite Hm. unfold monthRows at 1. cbn [monthBuckets]. rewrite get_set_eq.
        cbn [default from_option map]. unfold Datatypes.id. now rewrite <- app_assoc.
      * rewrite Hm. unfold monthRows at 1. cbn [monthBuckets].
        rewrite get_set_ne by (intros Heq; apply Hp; repeat split; assumption).
        reflexivity.
    + rewrite place_nowhere in Ht, Hc, Hm |- * by assumption.
      split; [|split; [|intros k]]; rewrite filter_cons; destruct (decide _) as [Hp|Hp];
        try (exfalso; clear Ht Hc Hm; intuition congruence).
      * exact Ht.
      * exact Hc.
      * apply Hm.
Qed.

(** The month dictionary keeps one entry per key. *)
Lemma placed_keys_NoDup kept acc :
  NoDup (JsObject.keys (monthBuckets acc)) ->
  NoDup (JsObject.keys (monthBuckets (fold_left place kept acc))).
Proof.
  revert acc. induction kept as [|b kept IH]; intros acc Hnd; simpl; [assumption|].
  apply IH. rewrite place_unfold.
  destruct (startsToday timeZone now b); [assumption|].
  destruct (insideCurrentMonth timeZone now b); [assumption|].
  destruct (afterCurrentMonth timeZone now b); [|assumption].
  now apply keys_set_NoDup.
Qed.

End GroupingFacts.

Lemma get_of_entry {V : Type} (o : JsObject.t V) (k : string) (v : V) :
  NoDup (JsObject.keys o) -> (k, v) ∈ o -> JsObject.getOwn k o = Some v.
Proof.
  unfold JsObject.keys.
  induction o as [|[k' v'] o IH]; simpl; intros Hnd Hin.
  - now apply elem_of_nil in Hin.
  - apply NoDup_cons in Hnd as [Hk' Hnd].
    apply elem_of_cons in Hin as [[= -> ->]|Hin].
    + now rewrite decide_True.
    + destruct (decide (k' = k)) as [->|Hne]; [|now apply IH].
      exfalso. apply Hk'. apply list_elem_of_fmap. now exists (k, v).
Qed.

(** [groupedBookings] returns exactly when the filter does, and then with
    the buckets filled from the kept bookings. *)
Lemma groupedBookings_Normal timeZone instant status query_data g :
  groupedBookings timeZone instant status (Some query_data) = Normal g
  <-> exists kept,
        keptBookings status (bookings query_data) = Normal kept
        /\ g = bucketsOf timeZone instant (recurringInfo query_data) kept.
Proof.
  unfold groupedBookings, bucketsOf.
  destruct (keptBookings status (bookings query_data)) as [kept|]; split.
  - intros [= <-]. now exists kept.
  - intros (kept' & [= <-] & ->). reflexivity.
  - discriminate.
  - intros (kept' & Hkept & _). discriminate Hkept.
Qed.

(** What the buckets hold, read off the list of kept bookings. *)
Lemma groupedBookings_buckets timeZone instant infos kept :
  let now := Dayjs.tz instant timeZone in
  let row := rowOf timeZone now infos in
  let g := bucketsOf timeZone instant infos kept in
  today g = map row (filter (fun b => startsToday timeZone now b = true) kept)
  /\ currentMonth g
     = map row (filter (fun b => startsToday timeZone now b = false
                                 /\ insideCurrentMonth timeZone now b = true) kept)
  /\ (forall monthKey,
        monthRows g monthKey
        = map row (filter (fun b => startsToday timeZone now b = false
                                    /\ insideCurrentMonth timeZone now b = false
                                    /\ afterCurrentMonth timeZone now b = true
                                    /\ monthKeyOfBooking timeZone b = monthKey) kept))
  /\ NoDup (JsObject.keys (monthBuckets g)).
Proof.
  intros now row g.
  destruct (placed_buckets timeZone now infos kept noBookings) as (Ht & Hc & Hm).
  repeat split; try assumption.
  apply placed_keys_NoDup. constructor.
Qed.

(** Without a query result there is nothing in the buckets. *)
Lemma groupedBookings_None timeZone instant status g :
  groupedBookings timeZone instant status None = Normal g -> g = noBookings.
Proof. now intros [= <-]. Qed.

(** Whatever the query, the buckets returned are filled from some list of
    bookings. *)
Lemma groupedBookings_filled timeZone instant status query_data g :
  groupedBookings timeZone instant status query_data = Normal g ->
  exists infos kept, g = bucketsOf timeZone instant infos kept.
Proof.
  destruct query_data as [query_data|].
  - intros Hg. apply groupedBookings_Normal in Hg as (kept & _ & ->).
    now exists (recurringInfo query_data), kept.
  - intros ->%groupedBookings_None. now exists [], [].
Qed.

(** Every row of a month bucket is found under its key. *)
Lemma month_bucket_row (g : Grouped) (r : RowData) :
  NoDup (JsObject.keys (monthBuckets g)) ->
  r ∈ concat (JsObject.values (monthBuckets g)) ->
  exists monthKey, r ∈ monthRows g monthKey.
Proof.
  intros Hnd Hr. apply list_elem_of_In, in_concat in Hr as (rows & Hrows & Hr).
  apply list_elem_of_In in Hrows. unfold JsObject.values in Hrows.
  apply list_elem_of_fmap in Hrows as ([k rows'] & -> & Hentry).
  exists k. unfold monthRows. rewrite (get_of_entry _ _ _ Hnd Hentry).
  now apply list_elem_of_In.
Qed.

(** C7.  For every status other than "upcoming" the rows built from the
    buckets that [groupedBookings] returns are the current-month rows
    followed by the rows of the month buckets, bucket after bucket.  Every one of them is a data row (there is no separator)
    of a booking that does not start today, and no booking that has a row
    in the today bucket has a row in the output. *)
Theorem other_status_rows_flat
    (t : string -> string) (timeZone instant : Z) (status : BookingListingStatus)
    (query_data : option QueryData) (g : Grouped) :
  status <> upcoming ->
  groupedBookings timeZone instant status query_data = Normal g ->
  finalData t status g = currentMonth g ++ concat (JsObject.values (monthBuckets g))
  /\ (forall r, r ∈ finalData t status g ->
        exists b info,
          r = data b false info
          /\ dateOf timeZone b <> Dayjs.format_YYYY_MM_DD (Dayjs.tz instant timeZone))
  /\ (forall b flag info,
        data b flag info ∈ today g ->
        forall flag' info', data b flag' info' ∉ finalData t status g).
Proof.
  intros Hstatus Hg.
  apply groupedBookings_filled in Hg as (infos & kept & ->).
  set (g := bucketsOf timeZone instant infos kept).
  destruct (groupedBookings_buckets timeZone instant infos kept) as (Ht & Hc & Hm & Hnd).
  fold g in Ht, Hc, Hm, Hnd.
  assert (Hflat : finalData t status g
                  = currentMonth g ++ concat (JsObject.values (monthBuckets g))).
  { unfold finalData. now rewrite bool_decide_eq_true_2. }
  assert (Hrows : forall r, r ∈ finalData t status g ->
            exists b info,
              r = data b false info
              /\ dateOf timeZone b <> Dayjs.format_YYYY_MM_DD (Dayjs.tz instant timeZone)).
  { intros r. rewrite Hflat.
    intros Hr. apply elem_of_app in Hr as [Hr|Hr].
    - rewrite Hc in Hr. apply list_elem_of_fmap in Hr as (b & -> & Hb).
      apply list_elem_of_filter in Hb as [[Hnot _] _].
      exists b. eexists. unfold rowOf. rewrite Hnot. split; [reflexivity|].
      unfold startsToday in Hnot. now apply bool_decide_eq_false in Hnot.
    - apply month_bucket_row in Hr as [k Hr]; [|assumption].
      rewrite Hm in Hr. apply list_elem_of_fmap in Hr as (b & -> & Hb).
      apply list_elem_of_filter in Hb as [[Hnot _] _].
      exists b. eexists. unfold rowOf. rewrite Hnot. split; [reflexivity|].
      unfold startsToday in Hnot. now apply bool_decide_eq_false in Hnot. }
  split; [assumption|split; [assumption|]].
  intros b flag info Htoday flag' info' Hout.
  apply Hrows in Hout as (b' & info'' & [= <- _ _] & Hdate).
  rewrite Ht in Htoday. apply list_elem_of_fmap in Htoday as (b'' & [= <- _ _] & Hb).
  apply list_elem_of_filter in Hb as [Hyes _].
  unfold startsToday in Hyes. apply bool_decide_eq_true in Hyes. contradiction.
Qed.

(** ** One bucket per booking *)

(** The row of [b] is among the rows of a filtered list exactly when [b]
    is in the list and passes the filter. *)
Lemma row_in_filtered timeZone now infos (P : BookingOutput -> Prop)
    `{!forall b, Decision (P b)} (kept : list BookingOutput) (b : BookingOutput) :
  rowOf timeZone now infos b ∈ map (rowOf timeZone now infos) (filter P kept)
  <-> b ∈ kept /\ P b.
Proof.
  rewrite list_elem_of_fmap. split.
  - intros (b' & Heq & Hb'). injection Heq as <- _ _.
    apply list_elem_of_filter in Hb' as [HP Hin]. now split.
  - intros [Hin HP]. exists b. split; [reflexivity|].
    apply list_elem_of_filter. now split.
Qed.

(** X23.  The row of a booking is in at most one bucket, whatever its
    start (the two boundary instants of the month included): a row of the
    today bucket is in no other, a row of the current-month bucket is in no
    other, and a row of a month bucket is in no other bucket and under no
    other key.  For a kept booking the three tests of the loop name the
    bucket: the today bucket when its date is today; otherwise the
    current-month bucket when it starts strictly between the first and the
    last instant of the current month, and the month bucket keyed by its
    year-month string when it starts after the last instant. *)
Theorem booking_row_in_at_most_one_bucket
    (timeZone instant : Z) (status : BookingListingStatus) (query_data : QueryData)
    (g : Grouped) (b : BookingOutput) :
  groupedBookings timeZone instant status (Some query_data) = Normal g ->
  let now := Dayjs.tz instant timeZone in
  let r := rowOf timeZone now (recurringInfo query_data) b in
  let monthStart := Dayjs.valueOf (Dayjs.startOf_month now) in
  let monthEnd := Dayjs.valueOf (Dayjs.endOf_month now) in
  (r ∈ today g -> (r ∉ currentMonth g) /\ forall monthKey, r ∉ monthRows g monthKey)
  /\ (r ∈ currentMonth g -> (r ∉ today g) /\ forall monthKey, r ∉ monthRows g monthKey)
  /\ (forall monthKey, r ∈ monthRows g monthKey ->
        (r ∉ today g) /\ (r ∉ currentMonth g)
        /\ forall monthKey', r ∈ monthRows g monthKey' -> monthKey' = monthKey)
  /\ (forall kept, keptBookings status (bookings query_data) = Normal kept ->
        b ∈ kept ->
        (dateOf timeZone b = Dayjs.format_YYYY_MM_DD now -> r ∈ today g)
        /\ (dateOf timeZone b <> Dayjs.format_YYYY_MM_DD now ->
            monthStart < startTime b < monthEnd -> r ∈ currentMonth g)
        /\ (dateOf timeZone b <> Dayjs.format_YYYY_MM_DD now ->
            monthEnd < startTime b -> r ∈ monthRows g (monthKeyOfBooking timeZone b))).
Proof.
  intros Hg now r monthStart monthEnd.
  apply groupedBookings_Normal in Hg as (kept & Hkept & ->).
  set (g := bucketsOf timeZone instant (recurringInfo query_data) kept).
  destruct (groupedBookings_buckets timeZone instant (recurringInfo query_data) kept)
    as (Ht & Hc & Hm & _).
  fold now g in Ht, Hc, Hm.
  assert (Hr_today : r ∈ today g <-> b ∈ kept /\ startsToday timeZone now b = true).
  { rewrite Ht. unfold r. rewrite row_in_filtered. tauto. }
  assert (Hr_month : r ∈ currentMonth g
                     <-> b ∈ kept /\ startsToday timeZone now b = false
                         /\ insideCurrentMonth timeZone now b = true).
  { rewrite Hc. unfold r. rewrite row_in_filtered. tauto. }
  assert (Hr_bucket : forall k, r ∈ monthRows g k
                      <-> b ∈ kept /\ startsToday timeZone now b = false
                          /\ insideCurrentMonth timeZone now b = false
                          /\ afterCurrentMonth timeZone now b = true
                          /\ monthKeyOfBooking timeZone b = k).
  { intros k. rewrite Hm. unfold r. rewrite row_in_filtered. tauto. }
  assert (Hdate : startsToday timeZone now b = true
                  <-> dateOf timeZone b = Dayjs.format_YYYY_MM_DD now).
  { unfold startsToday. apply bool_decide_eq_true. }
  assert (Hinside : insideCurrentMonth timeZone now b = true
                    <-> monthStart < startTime b < monthEnd).
  { unfold insideCurrentMonth, Dayjs.isAfter, Dayjs.isBefore. cbn [Dayjs.valueOf Dayjs.tz].
    rewrite andb_true_iff, !Z.ltb_lt. reflexivity. }
  assert (Hafter : afterCurrentMonth timeZone now b = true <-> monthEnd < startTime b).
  { unfold afterCurrentMonth, Dayjs.isAfter. cbn [Dayjs.valueOf Dayjs.tz].
    apply Z.ltb_lt. }
  clearbody g r monthStart monthEnd. clear Ht Hc Hm.
  split; [|split; [|split]].
  - intros Hr. apply Hr_today in Hr as [_ Hr]. split.
    + rewrite Hr_month. intros (_ & Hno & _). congruence.
    + intros k. rewrite Hr_bucket. intros (_ & Hno & _). congruence.
  - intros Hr. apply Hr_month in Hr as (_ & Hr1 & Hr2). split.
    + rewrite Hr_today. intros [_ Hyes]. congruence.
    + intros k. rewrite Hr_bucket. intros (_ & _ & Hno & _). congruence.
  - intros k Hr. apply Hr_bucket in Hr as (_ & Hr1 & Hr2 & _ & Hk). split; [|split].
    + rewrite Hr_today. intros [_ Hyes]. congruence.
    + rewrite Hr_month. intros (_ & _ & Hyes). congruence.
    + intros k'. rewrite Hr_bucket. intros (_ & _ & _ & _ & Hk'). congruence.
  - intros kept' Hkept' Hb.
    assert (kept' = kept) as -> by congruence.
    split; [|split].
    + intros Htoday. apply Hr_today. split; [exact Hb | now apply Hdate].
    + intros Hnot Hin. apply Hr_month. split; [exact Hb|]. split; [|now apply Hinside].
      destruct (startsToday timeZone now b); [|reflexivity].
      exfalso. apply Hnot. now apply Hdate.
    + intros Hnot Hlater. apply Hr_bucket. split; [exact Hb|].
      split; [|split; [|split; [now apply Hafter | reflexivity]]].
      * destruct (startsToday timeZone now b); [|reflexivity].
        exfalso. apply Hnot. now apply Hdate.
      * destruct (insideCurrentMonth timeZone now b); [|reflexivity].
        destruct Hinside as [Hinside _]. specialize (Hinside eq_refl). lia.
Qed.

Lemma booking_row_in_at_most_one_bucket_witness :
  rowOf utc (Dayjs.tz noon_15_june_2025 utc) [] b_june ∈ currentMonth springBuckets
  /\ (rowOf utc (Dayjs.tz noon_15_june_2025 utc) [] b_june ∉ today springBuckets).
Proof.
  assert (Hg : groupedBookings utc noon_15_june_2025 past (Some springBookings)
               = Normal springBuckets) by (vm_compute; reflexivity).
  pose proof (booking_row_in_at_most_one_bucket utc noon_15_june_2025 past springBookings
                springBuckets b_june Hg) as Hb.
  cbv zeta in Hb. destruct Hb as (_ & Hmonth & _ & Hkept).
  assert (Hin : rowOf utc (Dayjs.tz noon_15_june_2025 utc) [] b_june
                  ∈ currentMonth springBuckets).
  { destruct (Hkept (bookings springBookings)) as (_ & Hcurrent & _).
    - vm_compute. reflexivity.
    - apply list_elem_of_In. vm_compute. tauto.
    - apply Hcurrent.
      + vm_compute. discriminate.
      + vm_compute. split; reflexivity. }
  split; [exact Hin | exact (proj1 (Hmonth Hin))].
Defined.

(** C2.  The code does not do what the claim says: on the page of past
    bookings opened on 15 June 2025 that holds the bookings of 20 June,
    20 May and 1 June 00:00, the dedup step keeps all three; the row of the
    booking of 20 May is put in none of the three buckets, and the list
    shows one booking of the three. *)
Lemma last_month_booking_in_no_bucket :
  keptBookings past (bookings springBookings) = Normal [b_june; b_may; b_first_of_june]
  /\ groupedBookings utc noon_15_june_2025 past (Some springBookings) = Normal springBuckets
  /\ inNoBucket springBuckets
       (rowOf utc (Dayjs.tz noon_15_june_2025 utc) (recurringInfo springBookings) b_may)
  /\ dataRows (finalData t_en past springBuckets) = [b_june].
Proof.
  split; [vm_compute; reflexivity|].
  split; [vm_compute; reflexivity|].
  split; [|vm_compute; reflexivity].
  unfold inNoBucket. split; [|split; [|intros monthKey]];
    rewrite list_elem_of_In; vm_compute; intuition discriminate.
Qed.

(** A booking that starts on the very first millisecond of the current
    month (and not today) is not after [startOf("month")], so the loop
    places it nowhere either. *)
Lemma month_boundary_booking_in_no_bucket :
  startTime b_first_of_june
    = Dayjs.valueOf (Dayjs.startOf_month (Dayjs.tz noon_15_june_2025 utc))
  /\ groupedBookings utc noon_15_june_2025 past (Some springBookings) = Normal springBuckets
  /\ inNoBucket springBuckets
       (rowOf utc (Dayjs.tz noon_15_june_2025 utc) (recurringInfo springBookings)
          b_first_of_june).
Proof.
  split; [reflexivity|].
  split; [vm_compute; reflexivity|].
  unfold inNoBucket. split; [|split; [|intros monthKey]];
    rewrite list_elem_of_In; vm_compute; intuition discriminate.
Qed.

Lemma other_status_rows_flat_witness :
  finalData t_en past summerBuckets
    = [ data b_june false None; data b_august false None;
        data b_july_1 false None; data b_july_2 false None ]
  /\ (data b_today true None ∉ finalData t_en past summerBuckets).
Proof.
  assert (Hpast : past <> upcoming) by discriminate.
  assert (Hg : groupedBookings utc noon_15_june_2025 past (Some summerBookings)
               = Normal summerBuckets) by (vm_compute; reflexivity).
  pose proof (other_status_rows_flat t_en utc noon_15_june_2025 past (Some summerBookings)
                summerBuckets Hpast Hg) as Hflat.
  destruct Hflat as (Heq & _ & Htoday).
  split.
  - rewrite Heq. vm_compute. reflexivity.
  - apply (Htoday b_today true None). apply list_elem_of_In. vm_compute. tauto.
Defined.

(** The rows of the sample page, for "upcoming": the sections come in the
    order Today, This Month, July, August although the August booking is
    the first of the input. *)
Lemma upcoming_rows_of_summer :
  groupedBookings utc noon_15_june_2025 upcoming (Some summerBookings) = Normal summerBuckets
  /\ finalData t_en upcoming summerBuckets
     = [ separator "Today"; data b_today true None;
         separator "This Month"; data b_june false None;
         separator "July 2025"; data b_july_1 false None; data b_july_2 false None;
         separator "August 2025"; data b_august false None ].
Proof. split; vm_compute; reflexivity. Qed.

(** ** Recurring instances *)

Lemma truthyString_Some (s : option string) (rid : string) :
  truthyString s = Some rid <-> s = Some rid /\ rid <> ""%string.
Proof.
  unfold truthyString. destruct s as [s|]; [|split; [discriminate | intros [? _]; discriminate]].
  destruct (decide (s = ""%string)) as [->|Hne]; split.
  - discriminate.
  - intros [[= <-] Hne]. contradiction.
  - intros [= <-]. now split.
  - intros [[= <-] _]. reflexivity.
Qed.

Lemma getOwn_not_key {V : Type} (o : JsObject.t V) (k : string) :
  k ∉ JsObject.keys o -> JsObject.getOwn k o = None.
Proof.
  unfold JsObject.keys. induction o as [|[k' v] o IH]; [reflexivity|].
  cbn [map fst JsObject.getOwn]. intros Hk.
  apply not_elem_of_cons in Hk as [Hne Hk].
  rewrite decide_False by congruence. now apply IH.
Qed.

(** What is found past the own properties is never an array of the
    program's. *)
Lemma inherited_no_array {A : Type} (proto : option (list A)) (k : string) (l : list A) :
  JsObject.inherited proto k <> JsObject.array l.
Proof.
  unfold JsObject.inherited.
  destruct proto as [items|];
    repeat match goal with
           | |- context [if ?c then _ else _] => destruct c
           | |- context [match JsObject.getOwn ?x ?y with _ => _ end] =>
               destruct (JsObject.getOwn x y)
           end; discriminate.
Qed.

Section DictionaryFacts.

Implicit Types (shown : JsObject.Dictionary BookingOutput) (k rid : string).

Lemma get_assign_eq shown k l : JsObject.get k (JsObject.assign k l shown) = JsObject.array l.
Proof.
  unfold JsObject.get, JsObject.assign.
  destruct (decide (k = "__proto__"%string)) as [Hk|Hk]; cbn [JsObject.own JsObject.proto].
  - reflexivity.
  - now rewrite get_set_eq.
Qed.

Lemma get_assign_other shown k k' l l' :
  k <> k' ->
  JsObject.get k' (JsObject.assign k l shown) = JsObject.array l'
  <-> JsObject.get k' shown = JsObject.array l'.
Proof.
  intros Hne. unfold JsObject.get, JsObject.assign.
  destruct (decide (k = "__proto__"%string)) as [->|Hk];
    cbn [JsObject.own JsObject.proto].
  - rewrite !decide_False by congruence.
    destruct (JsObject.getOwn k' (JsObject.own shown)) as [l0|]; [reflexivity|].
    split; intros H; now apply inherited_no_array in H.
  - destruct (decide (k' = "__proto__"%string)); [reflexivity|].
    now rewrite get_set_ne.
Qed.

Lemma recorded_assign shown k k' l :
  recorded (JsObject.assign k l shown) k' = if decide (k = k') then l else recorded shown k'.
Proof.
  destruct (decide (k = k')) as [<-|Hne].
  - unfold recorded. now rewrite get_assign_eq.
  - unfold recorded, JsObject.get, JsObject.assign.
    destruct (decide (k = "__proto__"%string)) as [->|Hk];
      cbn [JsObject.own JsObject.proto].
    + rewrite !decide_False by congruence.
      destruct (JsObject.getOwn k' (JsObject.own shown)) as [l'|]; [reflexivity|].
      destruct (JsObject.inherited (Some l) k') as [l1| | |] eqn:E1;
        [now apply inherited_no_array in E1|..];
        destruct (JsObject.inherited (JsObject.proto shown) k') as [l2| | |] eqn:E2;
        solve [reflexivity | now apply inherited_no_array in E2].
    + destruct (decide (k' = "__proto__"%string)); [reflexivity|].
      now rewrite get_set_ne.
Qed.

Lemma seen_recorded shown rid : seen shown rid = (0 <? length (recorded shown rid))%nat.
Proof.
  unfold seen, recorded. now destruct (JsObject.get rid shown).
Qed.

Lemma seen_assign shown k k' l :
  seen (JsObject.assign k l shown) k'
  = if decide (k = k') then (0 <? length l)%nat else seen shown k'.
Proof.
  rewrite !seen_recorded, recorded_assign. now destruct (decide (k = k')).
Qed.

Lemma recorded_empty rid : recorded JsObject.emptyDictionary rid = [].
Proof.
  unfold recorded, JsObject.get, JsObject.emptyDictionary.
  cbn [JsObject.own JsObject.proto].
  destruct (decide (rid = "__proto__"%string)); [reflexivity|].
  cbn [JsObject.getOwn JsObject.empty].
  destruct (JsObject.inherited None rid) as [l| | |] eqn:E; try reflexivity.
  now apply inherited_no_array in E.
Qed.

Lemma seen_empty rid : seen JsObject.emptyDictionary rid = false.
Proof. now rewrite seen_recorded, recorded_empty. Qed.

Lemma own_assign_other shown k k' l :
  k <> k' ->
  JsObject.getOwn k' (JsObject.own (JsObject.assign k l shown))
  = JsObject.getOwn k' (JsObject.own shown).
Proof.
  intros Hne. unfold JsObject.assign.
  destruct (decide (k = "__proto__"%string)); cbn [JsObject.own]; [reflexivity|].
  now apply get_set_ne.
Qed.

Lemma proto_assign shown k l :
  k <> "__proto__"%string ->
  JsObject.proto (JsObject.assign k l shown) = JsObject.proto shown.
Proof.
  intros Hk. unfold JsObject.assign. now rewrite decide_False.
Qed.

(** With [Object.prototype] as its prototype, an object has nothing to
    clash with under a name that is not inherited. *)
Lemma plain_name_no_clash shown rid :
  rid ∉ inheritedNames -> JsObject.proto shown = None -> clashes shown rid = false.
Proof.
  unfold inheritedNames. intros Hrid Hproto.
  apply not_elem_of_cons in Hrid as [Hne Hrid].
  unfold clashes, JsObject.get. rewrite decide_False by exact Hne.
  destruct (JsObject.getOwn rid (JsObject.own shown)); [reflexivity|].
  rewrite Hproto. unfold JsObject.inherited.
  now rewrite (getOwn_not_key _ _ Hrid).
Qed.

(** Under the name of a method of [Object.prototype] that takes an
    argument, an object without such an own property has a function with a
    positive [length], whatever its prototype is by then. *)
Lemma method_name_clashes shown rid n :
  JsObject.getOwn rid JsObject.objectPrototype = Some n ->
  0 < n ->
  JsObject.getOwn rid (JsObject.own shown) = None ->
  clashes shown rid = true /\ seen shown rid = false /\ rid <> ""%string.
Proof.
  intros Hmethod Hn Hown.
  unfold JsObject.objectPrototype, JsObject.method in Hmethod.
  cbn [JsObject.getOwn] in Hmethod.
  repeat match type of Hmethod with
         | (if decide (?name = rid) then _ else _) = _ =>
             destruct (decide (name = rid)) as [<-|_];
             [first
                [ exfalso; injection Hmethod as <-; lia
                | unfold clashes, seen, JsObject.get;
                  rewrite decide_False by discriminate; rewrite Hown;
                  unfold JsObject.inherited;
                  destruct (JsObject.proto shown) as [items|];
                  (split; [vm_compute; reflexivity
                          | split; [vm_compute; reflexivity | discriminate]]) ]
             |]
         end.
  discriminate Hmethod.
Qed.

End DictionaryFacts.

(** The month keys of the grouping loop name nothing that an object
    inherits: each has a hyphen.  [monthBuckets[monthKey]] is therefore the
    own property with that key, or [undefined]. *)
Lemma hasHyphen_app (a b : string) : hasHyphen (String.app a (String "-" b)) = true.
Proof.
  induction a as [|c a IH]; [reflexivity|].
  change ((bool_decide (c = "-"%char) || hasHyphen (String.app a (String "-" b))) = true).
  rewrite IH. apply orb_true_r.
Qed.

Lemma monthKey_names_nothing_inherited (y m : Z) (o : JsObject.t (list RowData)) :
  (Dayjs.monthKeyOf y m ∉ inheritedNames)
  /\ JsObject.get (Dayjs.monthKeyOf y m) {| JsObject.own := o; JsObject.proto := None |}
     = match JsObject.getOwn (Dayjs.monthKeyOf y m) o with
       | Some rows => JsObject.array rows
       | None => JsObject.undefined
       end.
Proof.
  assert (Hkey : Dayjs.monthKeyOf y m ∉ inheritedNames).
  { intros Hin.
    assert (Hnone : Forall (fun name => hasHyphen name = false) inheritedNames)
      by (vm_compute; repeat constructor).
    rewrite Forall_forall in Hnone. specialize (Hnone _ Hin).
    unfold Dayjs.monthKeyOf in Hnone.
    change (String.app "-" (Dayjs.padStart m 2)) with (String "-" (Dayjs.padStart m 2))
      in Hnone.
    rewrite hasHyphen_app in Hnone. discriminate Hnone. }
  split; [exact Hkey|].
  unfold inheritedNames in Hkey. apply not_elem_of_cons in Hkey as [Hne Hkey].
  unfold JsObject.get. cbn [JsObject.own JsObject.proto].
  rewrite decide_False by exact Hne.
  destruct (JsObject.getOwn (Dayjs.monthKeyOf y m) o); [reflexivity|].
  unfold JsObject.inherited. now rewrite (getOwn_not_key _ _ Hkey).
Qed.

(** A call of the filter that returns has made its first step and the rest. *)
Lemma filterWith_cons_Normal {S A} (callback : S -> A -> Completion (bool * S))
    (s : S) (x : A) (l : list A) (kept : list A) (s' : S) :
  filterWith callback s (x :: l) = Normal (kept, s') ->
  exists keep s1 kept1,
    callback s x = Normal (keep, s1)
    /\ filterWith callback s1 l = Normal (kept1, s')
    /\ kept = if keep then x :: kept1 else kept1.
Proof.
  cbn [filterWith]. destruct (callback s x) as [[keep s1]|]; [|discriminate].
  destruct (filterWith callback s1 l) as [[kept1 s2]|] eqn:Hrest; [|discriminate].
  intros [= <- <-]. now exists keep, s1, kept1.
Qed.

Lemma keptBookings_Normal status bookings kept :
  keptBookings status bookings = Normal kept
  <-> exists shown,
        filterWith (filterBookings status) JsObject.emptyDictionary bookings
        = Normal (kept, shown).
Proof.
  unfold keptBookings.
  destruct (filterWith _ _ bookings) as [[kept' shown']|]; split.
  - intros [= <-]. now exists shown'.
  - intros (shown & [= <- <-]). reflexivity.
  - discriminate.
  - intros (shown & Hrun). discriminate Hrun.
Qed.

Section DedupFacts.

Variable status : BookingListingStatus.
Hypothesis Hdedup : dedupStatus status.

(** The callback, for the statuses that collapse recurring instances. *)
Lemma filterBookings_dedup shown b :
  filterBookings status shown b
  = match truthyString (recurringEventId b) with
    | None => Normal (true, shown)
    | Some rid =>
        if seen shown rid
        then Normal (false, JsObject.assign rid (recorded shown rid ++ [b]) shown)
        else if clashes shown rid then TypeError
             else Normal (true, JsObject.assign rid [b] shown)
    end.
Proof.
  unfold filterBookings, seen, recorded, clashes.
  destruct Hdedup as [-> | [-> | ->]];
    destruct (truthyString (recurringEventId b)) as [rid|]; try reflexivity;
    destruct (JsObject.get rid shown) as [l|n| |]; try reflexivity;
    first [destruct (0 <? length l)%nat; reflexivity | destruct (0 <? n); reflexivity].
Qed.

(** Of a series, the filter keeps the first instance it meets, unless one
    was shown before. *)
Lemma kept_of_series rid bookings shown kept shown' :
  rid <> ""%string ->
  filterWith (filterBookings status) shown bookings = Normal (kept, shown') ->
  filter (inSeries rid) kept
  = if seen shown rid then [] else take 1 (filter (inSeries rid) bookings).
Proof.
  intros Hrid. revert shown kept.
  induction bookings as [|b bookings IH]; intros shown kept Hrun.
  - injection Hrun as <- _. cbn. now destruct (seen shown rid).
  - apply filterWith_cons_Normal in Hrun as (keep & shown1 & kept1 & Hstep & Hrest & ->).
    rewrite filterBookings_dedup in Hstep.
    specialize (IH _ _ Hrest).
    destruct (truthyString (recurringEventId b)) as [rid'|] eqn:Hb.
    + apply truthyString_Some in Hb as [Hb Hrid'].
      destruct (seen shown rid') eqn:Hseen.
      * injection Hstep as <- <-. rewrite IH, seen_assign.
        destruct (decide (rid' = rid)) as [->|Hne].
        -- rewrite Hseen, length_app. cbn [length].
           now replace (0 <? length (recorded shown rid) + 1)%nat
             with true by (symmetry; apply Nat.ltb_lt; lia).
        -- rewrite (filter_cons_False (inSeries rid)); [reflexivity|].
           unfold inSeries. congruence.
      * destruct (clashes shown rid'); [discriminate|].
        injection Hstep as <- <-. rewrite seen_assign in IH.
        destruct (decide (rid' = rid)) as [->|Hne].
        -- rewrite Hseen. rewrite !filter_cons_True by exact Hb.
           cbn [length Nat.ltb Nat.leb] in IH. rewrite IH. reflexivity.
        -- rewrite !(filter_cons_False (inSeries rid)) by (unfold inSeries; congruence).
           exact IH.
    + injection Hstep as <- <-.
      assert (Hnot : ~ inSeries rid b).
      { unfold inSeries. intros Hin.
        assert (Hsome : truthyString (recurringEventId b) = Some rid)
          by (apply truthyString_Some; now split).
        congruence. }
      rewrite !filter_cons_False by exact Hnot. exact IH.
Qed.

(** Bookings without a recurring id all pass the filter. *)
Lemma kept_without_series bookings shown kept shown' :
  filterWith (filterBookings status) shown bookings = Normal (kept, shown') ->
  filter noSeries kept = filter noSeries bookings.
Proof.
  revert shown kept. induction bookings as [|b bookings IH]; intros shown kept Hrun.
  - now injection Hrun as <- _.
  - apply filterWith_cons_Normal in Hrun as (keep & shown1 & kept1 & Hstep & Hrest & ->).
    rewrite filterBookings_dedup in Hstep.
    specialize (IH _ _ Hrest).
    destruct (truthyString (recurringEventId b)) as [rid'|] eqn:Hb.
    + assert (Hnot : ~ noSeries b) by (unfold noSeries; congruence).
      destruct (seen shown rid'); [|destruct (clashes shown rid'); [discriminate|]];
        injection Hstep as <- <-; rewrite ?filter_cons_False by exact Hnot;
        exact IH.
    + injection Hstep as <- <-. rewrite !filter_cons_True by exact Hb. now rewrite IH.
Qed.

(** The filter returns when no recurring id is an inherited name. *)
Lemma plain_ids_filtered bookings shown :
  Forall plainSeriesId bookings ->
  JsObject.proto shown = None ->
  exists kept shown', filterWith (filterBookings status) shown bookings = Normal (kept, shown').
Proof.
  intros Hplain. revert shown.
  induction Hplain as [|b bookings Hb _ IH]; intros shown Hproto.
  - now exists [], shown.
  - cbn [filterWith]. rewrite filterBookings_dedup.
    destruct (truthyString (recurringEventId b)) as [rid|] eqn:Hid.
    + apply truthyString_Some in Hid as [Hid _].
      pose proof (Hb rid Hid) as Hrid.
      assert (Hne : rid <> "__proto__"%string).
      { intros ->. apply Hrid. unfold inheritedNames. constructor. }
      rewrite (plain_name_no_clash shown rid Hrid Hproto).
      destruct (seen shown rid).
      * destruct (IH (JsObject.assign rid (recorded shown rid ++ [b]) shown))
          as (kept & shown' & ->); [now rewrite proto_assign|].
        now eexists _, _.
      * destruct (IH (JsObject.assign rid [b] shown)) as (kept & shown' & ->);
          [now rewrite proto_assign|].
        now eexists _, _.
    + destruct (IH shown Hproto) as (kept & shown' & ->). now eexists _, _.
Qed.

(** The filter throws when a recurring id is the name of a method of
    [Object.prototype] that takes an argument. *)
Lemma method_id_throws bookings shown b rid n :
  b ∈ bookings ->
  recurringEventId b = Some rid ->
  JsObject.getOwn rid JsObject.objectPrototype = Some n ->
  0 < n ->
  JsObject.getOwn rid (JsObject.own shown) = None ->
  filterWith (filterBookings status) shown bookings = TypeError.
Proof.
  intros Hin Hid Hmethod Hn. revert shown.
  induction bookings as [|x bookings IH]; intros shown Hown;
    [now apply elem_of_nil in Hin|].
  cbn [filterWith]. rewrite filterBookings_dedup.
  destruct (method_name_clashes shown rid n Hmethod Hn Hown) as (Hclash & Hseen & Hrid).
  destruct (decide (recurringEventId x = Some rid)) as [Hx|Hx].
  - assert (Htruthy : truthyString (recurringEventId x) = Some rid)
      by (apply truthyString_Some; now split).
    now rewrite Htruthy, Hseen, Hclash.
  - assert (Hrest : b ∈ bookings).
    { apply elem_of_cons in Hin as [->|Hin]; [contradiction | exact Hin]. }
    destruct (truthyString (recurringEventId x)) as [rid'|] eqn:Hid'.
    + apply truthyString_Some in Hid' as [Hid' _].
      assert (Hne : rid' <> rid) by congruence.
      destruct (seen shown rid'); [|destruct (clashes shown rid'); [reflexivity|]].
      * rewrite (IH Hrest); [reflexivity|]. now rewrite own_assign_other.
      * rewrite (IH Hrest); [reflexivity|]. now rewrite own_assign_other.
    + now rewrite (IH Hrest shown Hown).
Qed.

End DedupFacts.

(** For the other statuses the callback keeps every booking. *)
Lemma kept_all_without_dedup status bookings shown :
  ~ dedupStatus status ->
  filterWith (filterBookings status) shown bookings = Normal (bookings, shown).
Proof.
  intros Hno. induction bookings as [|b bookings IH]; [reflexivity|].
  cbn [filterWith].
  assert (Hcall : filterBookings status shown b = Normal (true, shown)).
  { unfold filterBookings, dedupStatus in *. destruct status; try reflexivity; tauto. }
  now rewrite Hcall, IH.
Qed.

(** C3, as amended.  When status is recurring, unconfirmed or cancelled
    and no recurring id is a name that every object inherits, the dedup
    step returns; and whenever it returns, it has kept, of every series with
    a non-empty recurring id that occurs among the bookings, exactly one
    booking: the first of the series in input order; and it has kept every
    booking whose recurring id is null or the empty string.  For every
    other status it keeps all bookings. *)
Theorem recurring_dedup (status : BookingListingStatus) (bookings : list BookingOutput) :
  (dedupStatus status ->
     (Forall plainSeriesId bookings ->
        exists kept, keptBookings status bookings = Normal kept)
     /\ (forall kept,
           keptBookings status bookings = Normal kept ->
           (forall rid first rest,
               rid <> ""%string ->
               filter (inSeries rid) bookings = first :: rest ->
               filter (inSeries rid) kept = [first])
           /\ filter noSeries kept = filter noSeries bookings))
  /\ (~ dedupStatus status -> keptBookings status bookings = Normal bookings).
Proof.
  split.
  - intros Hdedup. split.
    + intros Hplain.
      destruct (plain_ids_filtered status Hdedup bookings JsObject.emptyDictionary Hplain
                  eq_refl) as (kept & shown & Hrun).
      exists kept. apply keptBookings_Normal. now exists shown.
    + intros kept Hkept. apply keptBookings_Normal in Hkept as (shown & Hrun). split.
      * intros rid first rest Hrid Hseries.
        rewrite (kept_of_series status Hdedup rid _ _ _ _ Hrid Hrun).
        now rewrite seen_empty, Hseries.
      * exact (kept_without_series status Hdedup _ _ _ _ Hrun).
  - intros Hno. unfold keptBookings. now rewrite kept_all_without_dedup.
Qed.

Lemma recurring_dedup_witness :
  (exists kept,
      keptBookings cancelled (bookings cancelledBookings) = Normal kept
      /\ filter (inSeries "weekly") kept = [weekly_1]
      /\ filter noSeries kept = [blank_1; blank_2])
  /\ filter (inSeries "toString") [named_toString_1] = [named_toString_1]
  /\ keptBookings past (bookings cancelledBookings) = Normal (bookings cancelledBookings).
Proof.
  destruct (recurring_dedup cancelled (bookings cancelledBookings)) as [Hdedup _].
  destruct (recurring_dedup cancelled [named_toString_1; named_toString_2]) as [Hnamed _].
  destruct (recurring_dedup past (bookings cancelledBookings)) as [_ Hall].
  destruct Hdedup as [Hreturns Hkept]; [right; right; reflexivity|].
  destruct Hnamed as [_ Hnamed]; [right; right; reflexivity|].
  split; [|split].
  - destruct Hreturns as [kept Hrun].
    { apply (bool_decide_unpack _). vm_compute. exact I. }
    exists kept. split; [exact Hrun|].
    destruct (Hkept kept Hrun) as [Hseries Hnone].
    split.
    + apply (Hseries "weekly"%string weekly_1 [weekly_2; weekly_3]);
        [discriminate | reflexivity].
    + rewrite Hnone. reflexivity.
  - destruct (Hnamed [named_toString_1]) as [Hseries _]; [vm_compute; reflexivity|].
    apply (Hseries "toString"%string named_toString_1 [named_toString_2]);
      [discriminate | reflexivity].
  - apply Hall. intros [H | [H | H]]; discriminate H.
Defined.

(** C3, as stated, fails on the page of cancelled bookings opened on
    15 June 2025.  The series "weekly" has three instances; the dedup step
    keeps the first, which starts today, and the view of a status other than
    "upcoming" leaves the today bucket out: no row is emitted for the
    series.  The two bookings whose recurring id is the empty string are
    both kept and both emitted. *)
Lemma recurring_rows_not_exactly_one :
  keptBookings cancelled (bookings cancelledBookings) = Normal [weekly_1; blank_1; blank_2]
  /\ groupedBookings utc noon_15_june_2025 cancelled (Some cancelledBookings)
     = Normal cancelledBuckets
  /\ finalData t_en cancelled cancelledBuckets
     = [data blank_1 false None; data blank_2 false None].
Proof. repeat split; vm_compute; reflexivity. Qed.

(** * Further properties *)

(** ** The resolver: all members, and how the functions relate *)

Lemma find_agree_on {A} (p q : A -> bool) (l : list A) :
  (forall x, x ∈ l -> p x = q x) -> find p l = find q l.
Proof.
  induction l as [|x l IH]; intros Hpq; simpl; [reflexivity|].
  rewrite (Hpq x) by constructor.
  rewrite IH; [reflexivity|]. intros y Hy. apply Hpq. now constructor.
Qed.

(** The rows of the query for all accepted members of a team. *)
Lemma members_found (db : Store) (orgId : Z) (m : Membership) :
  membershipMatches db
    {| where_userId := None;
       where_userId_in := None;
       where_teamId := Some orgId;
       where_role_in := None;
       where_accepted := Some true;
       where_team_isOrganization := None |} m
  = (teamId m =? orgId) && accepted m.
Proof.
  unfold membershipMatches; simpl.
  destruct (teamId m =? orgId), (accepted m); reflexivity.
Qed.

Lemma candidate_found (db : Store) (orgId : Z) (memberUserIds : list Z) (m : Membership) :
  membershipMatches db
    {| where_userId := None;
       where_userId_in := Some memberUserIds;
       where_teamId := Some orgId;
       where_role_in := None;
       where_accepted := Some true;
       where_team_isOrganization := None |} m
  = bool_decide (userId m ∈ memberUserIds) && ((teamId m =? orgId) && accepted m).
Proof.
  unfold membershipMatches; simpl.
  destruct (bool_decide (userId m ∈ memberUserIds)), (teamId m =? orgId), (accepted m);
    reflexivity.
Qed.

(** Filtering the user ids of the members by the candidate list gives the
    user ids of the candidate rows, in the same order. *)
Lemma candidates_among_members (db : Store) (orgId : Z) (memberUserIds : list Z)
    (rows : list Membership) :
  map userId
    (filter (fun m => membershipMatches db
               {| where_userId := None;
                  where_userId_in := Some memberUserIds;
                  where_teamId := Some orgId;
                  where_role_in := None;
                  where_accepted := Some true;
                  where_team_isOrganization := None |} m = true) rows)
  = filter (fun u => u ∈ memberUserIds)
      (map userId
         (filter (fun m => membershipMatches db
                    {| where_userId := None;
                       where_userId_in := None;
                       where_teamId := Some orgId;
                       where_role_in := None;
                       where_accepted := Some true;
                       where_team_isOrganization := None |} m = true) rows)).
Proof.
  induction rows as [|m rows IH]; [reflexivity|].
  rewrite !filter_cons. rewrite candidate_found, members_found.
  destruct (decide (userId m ∈ memberUserIds)) as [Hin|Hout].
  - rewrite (bool_decide_eq_true_2 _ Hin). cbn [andb].
    destruct ((teamId m =? orgId) && accepted m).
    + rewrite !decide_True by reflexivity. cbn [map].
      rewrite filter_cons_True by exact Hin. now rewrite IH.
    + rewrite !decide_False by discriminate. exact IH.
  - rewrite (bool_decide_eq_false_2 _ Hout). cbn [andb].
    rewrite decide_False by discriminate.
    destruct ((teamId m =? orgId) && accepted m).
    + rewrite decide_True by reflexivity. cbn [map].
      rewrite filter_cons_False by exact Hout. exact IH.
    + rewrite decide_False by discriminate. exact IH.
Qed.

Lemma getAccessibleUsers1_result (db : Store) (memberUserIds : list Z) (adminUserId : Z) :
  Async.result (prismaMembership db)
    (Resolver1.getAccessibleUsers memberUserIds adminUserId)
  = match find (membershipMatches db (adminLookup1 adminUserId)) (memberships db) with
    | Some am =>
        match memberUserIds with
        | [] => []
        | _ :: _ => map userId (candidateRows db (teamId am) memberUserIds)
        end
    | None => []
    end.
Proof.
  unfold Async.result, Resolver1.getAccessibleUsers, adminLookup1, candidateRows; simpl.
  destruct (find _ (memberships db)) as [am|]; [|reflexivity].
  destruct memberUserIds; reflexivity.
Qed.

Lemma getAccessibleUsers2_result (db : Store) (memberUserIds : list Z) (adminUserId : Z) :
  Async.result (prismaMembership db)
    (Resolver2.getAccessibleUsers memberUserIds adminUserId)
  = match find (membershipMatches db (adminLookup2 adminUserId)) (memberships db) with
    | Some am =>
        match memberUserIds with
        | [] => []
        | _ :: _ => map userId (candidateRows db (teamId am) memberUserIds)
        end
    | None => []
    end.
Proof.
  unfold Async.result, Resolver2.getAccessibleUsers, adminLookup2, candidateRows; simpl.
  destruct (find _ (memberships db)) as [am|]; [|reflexivity].
  destruct memberUserIds; reflexivity.
Qed.

Lemma retrieveOrgScoped1_result (db : Store) (adminId : Z) :
  Async.result (prismaMembership db) (Resolver1.retrieveOrgScopedAccessibleUsers adminId)
  = match find (membershipMatches db (adminLookup1 adminId)) (memberships db) with
    | Some am => map userId (memberRows db (teamId am))
    | None => []
    end.
Proof.
  unfold Async.result, Resolver1.retrieveOrgScopedAccessibleUsers, adminLookup1, memberRows.
  simpl. destruct (find _ (memberships db)) as [am|]; reflexivity.
Qed.

Lemma retrieveOrgScoped2_result (db : Store) (adminId : Z) :
  Async.result (prismaMembership db) (Resolver2.retrieveOrgScopedAccessibleUsers adminId)
  = match find (membershipMatches db (adminLookup2 adminId)) (memberships db) with
    | Some am => map userId (memberRows db (teamId am))
    | None => []
    end.
Proof.
  unfold Async.result, Resolver2.retrieveOrgScopedAccessibleUsers, adminLookup2, memberRows.
  simpl. destruct (find _ (memberships db)) as [am|]; reflexivity.
Qed.

(** X1.  When the lookup of the admin's membership finds [am],
    [retrieveOrgScopedAccessibleUsers] returns the user ids of all accepted
    memberships of the team of [am], in the order of the store, and of no
    other membership. *)
Theorem org_scoped_users_are_accepted_members
    (db : Store) (adminId : Z) (am : Membership) :
  find (isOrganizationAdmin db adminId) (memberships db) = Some am ->
  Async.result (prismaMembership db) (Resolver1.retrieveOrgScopedAccessibleUsers adminId)
  = map userId
      (filter (fun m => teamId m = teamId am /\ accepted m = true) (memberships db)).
Proof.
  intros Hadmin.
  assert (H1 : find (membershipMatches db (adminLookup1 adminId)) (memberships db)
               = Some am).
  { rewrite <- Hadmin. apply find_agree. intros m. apply adminLookup1_matches. }
  rewrite retrieveOrgScoped1_result, H1. unfold memberRows. f_equal.
  apply list_filter_iff. intros m. rewrite members_found.
  rewrite andb_true_iff, Z.eqb_eq. reflexivity.
Qed.

Lemma org_scoped_users_are_accepted_members_witness :
  Async.result (prismaMembership acceptedOwnerStore)
    (Resolver1.retrieveOrgScopedAccessibleUsers 1)
  = map userId
      (filter (fun m => teamId m = 10 /\ accepted m = true)
         (memberships acceptedOwnerStore)).
Proof.
  apply (org_scoped_users_are_accepted_members acceptedOwnerStore 1
           {| userId := 1; teamId := 10; role := OWNER; accepted := true |}).
  reflexivity.
Defined.

(** X2.  In both revisions, for every store, admin and candidate list
    (empty or not), and whatever the order in which the store returns the
    rows of a query: [getAccessibleUsers] returns the ids that
    [retrieveOrgScopedAccessibleUsers] returns for the same admin and that
    are candidates, each as often as there -- the same ids up to their
    order. *)
Theorem accessible_users_within_org_scoped
    (arrange : MembershipWhere -> list Membership -> list Membership)
    (db : Store) (memberUserIds : list Z) (adminUserId : Z) :
  (forall w rows, arrange w rows ≡ₚ rows) ->
  Async.result (prismaMembershipArranged arrange db)
    (Resolver1.getAccessibleUsers memberUserIds adminUserId)
  ≡ₚ filter (fun u => u ∈ memberUserIds)
       (Async.result (prismaMembershipArranged arrange db)
          (Resolver1.retrieveOrgScopedAccessibleUsers adminUserId))
  /\ Async.result (prismaMembershipArranged arrange db)
       (Resolver2.getAccessibleUsers memberUserIds adminUserId)
     ≡ₚ filter (fun u => u ∈ memberUserIds)
          (Async.result (prismaMembershipArranged arrange db)
             (Resolver2.retrieveOrgScopedAccessibleUsers adminUserId)).
Proof.
  intros Harrange.
  assert (Hnone : forall l : list Z, [] = filter (fun u => u ∈ @nil Z) l).
  { intros l. induction l as [|u l IH]; [reflexivity|].
    rewrite filter_cons_False by apply not_elem_of_nil. exact IH. }
  assert (Hrows : forall orgId w1 w2,
            map userId (arrange w1 (candidateRows db orgId memberUserIds))
            ≡ₚ filter (fun u => u ∈ memberUserIds)
                 (map userId (arrange w2 (memberRows db orgId)))).
  { intros orgId w1 w2. rewrite !Harrange. unfold candidateRows, memberRows.
    now rewrite candidates_among_members. }
  unfold Async.result, Resolver1.getAccessibleUsers, Resolver2.getAccessibleUsers,
    Resolver1.retrieveOrgScopedAccessibleUsers, Resolver2.retrieveOrgScopedAccessibleUsers.
  cbn [Async.exec Async.await Async.bind mbind Async_bind prismaMembershipArranged fst].
  split.
  - destruct (head _) as [am|]; [|reflexivity].
    destruct memberUserIds as [|c cs]; cbn; [now rewrite <- Hnone | apply Hrows].
  - destruct (head _) as [am|]; [|reflexivity].
    destruct memberUserIds as [|c cs]; cbn; [now rewrite <- Hnone | apply Hrows].
Qed.

Lemma accessible_users_within_org_scoped_witness :
  Async.result (prismaMembershipArranged (fun _ => reverse) acceptedOwnerStore)
    (Resolver1.getAccessibleUsers [2; 1; 7] 1)
  ≡ₚ filter (fun u => u ∈ [2; 1; 7])
       (Async.result (prismaMembershipArranged (fun _ => reverse) acceptedOwnerStore)
          (Resolver1.retrieveOrgScopedAccessibleUsers 1)).
Proof.
  apply (accessible_users_within_org_scoped (fun _ => reverse) acceptedOwnerStore [2; 1; 7] 1).
  intros _ rows. apply reverse_Permutation.
Defined.

(** X3.  On a store where every membership that gives the admin
    administrative scope is accepted, the two revisions return the same
    lists: for [getAccessibleUsers] with any candidates, and for
    [retrieveOrgScopedAccessibleUsers]. *)
Theorem revisions_agree_on_accepted_admin
    (db : Store) (memberUserIds : list Z) (adminUserId : Z) :
  (forall m, m ∈ memberships db ->
             isOrganizationAdmin db adminUserId m = true -> accepted m = true) ->
  Async.result (prismaMembership db)
    (Resolver1.getAccessibleUsers memberUserIds adminUserId)
  = Async.result (prismaMembership db)
      (Resolver2.getAccessibleUsers memberUserIds adminUserId)
  /\ Async.result (prismaMembership db)
       (Resolver1.retrieveOrgScopedAccessibleUsers adminUserId)
     = Async.result (prismaMembership db)
         (Resolver2.retrieveOrgScopedAccessibleUsers adminUserId).
Proof.
  intros Haccepted.
  assert (Hsame : find (membershipMatches db (adminLookup1 adminUserId)) (memberships db)
                  = find (membershipMatches db (adminLookup2 adminUserId)) (memberships db)).
  { apply find_agree_on. intros m Hm.
    rewrite adminLookup1_matches, adminLookup2_matches.
    destruct (isOrganizationAdmin db adminUserId m) eqn:Hadmin; [|reflexivity].
    now rewrite (Haccepted m Hm Hadmin). }
  rewrite getAccessibleUsers1_result, getAccessibleUsers2_result,
    retrieveOrgScoped1_result, retrieveOrgScoped2_result, Hsame.
  split; reflexivity.
Qed.

Lemma revisions_agree_on_accepted_admin_witness :
  Async.result (prismaMembership acceptedOwnerStore) (Resolver1.getAccessibleUsers [2; 3] 1)
  = Async.result (prismaMembership acceptedOwnerStore) (Resolver2.getAccessibleUsers [2; 3] 1)
  /\ Async.result (prismaMembership acceptedOwnerStore)
       (Resolver1.retrieveOrgScopedAccessibleUsers 1)
     = Async.result (prismaMembership acceptedOwnerStore)
         (Resolver2.retrieveOrgScopedAccessibleUsers 1).
Proof.
  apply (revisions_agree_on_accepted_admin acceptedOwnerStore [2; 3] 1).
  intros m Hm. cbn in Hm.
  repeat (apply elem_of_cons in Hm as [-> | Hm]; [vm_compute; congruence|]).
  now apply elem_of_nil in Hm.
Defined.

(** ** The helpers of the second revision *)

Lemma find_filter {A} (p q : A -> bool) (l : list A) :
  find p (filter (fun x => q x = true) l) = find (fun x => q x && p x) l.
Proof.
  induction l as [|x l IH]; [reflexivity|].
  destruct (q x) eqn:Hq.
  - rewrite filter_cons_True by exact Hq. cbn [find]. rewrite Hq. cbn [andb].
    destruct (p x); [reflexivity | exact IH].
  - rewrite filter_cons_False by congruence. cbn [find]. rewrite Hq. exact IH.
Qed.

Lemma reduce_team_members (orgId : Z) (memberships : list Membership) (acc : list Z) :
  fold_left
    (fun acc membership =>
       if teamId membership =? orgId then acc ++ [userId membership] else acc)
    memberships acc
  = acc ++ map userId (filter (fun m => teamId m = orgId) memberships).
Proof.
  revert acc. induction memberships as [|m memberships IH]; intros acc.
  - simpl. now rewrite app_nil_r.
  - cbn [fold_left]. rewrite IH, filter_cons.
    destruct (Z.eqb_spec (teamId m) orgId) as [Heq|Hne].
    + rewrite decide_True by exact Heq. cbn [map]. now rewrite <- app_assoc.
    + rewrite decide_False by exact Hne. reflexivity.
Qed.

(** X4.  [getAllOrganizationMemberships] resolves to the user ids of the
    given memberships whose team is [orgId], one id per such membership and
    in the order given, and it makes no call on the store. *)
Theorem getAllOrganizationMemberships_lists_team
    (h : forall X, MembershipCall X -> X) (memberships : list Membership) (orgId : Z) :
  Async.exec h (Resolver2Helpers.getAllOrganizationMemberships memberships orgId)
  = (map userId (filter (fun m => teamId m = orgId) memberships), []).
Proof.
  unfold Resolver2Helpers.getAllOrganizationMemberships. cbn [mret Async_ret Async.exec].
  now rewrite reduce_team_members.
Qed.

(** X5.  The helpers add up to [retrieveOrgScopedAccessibleUsers] of the
    same revision: take the first of the rows of [getAllAdminMemberships]
    whose team is flagged as an organization; if there is none the function
    returns the empty list, otherwise it returns the user ids of the rows of
    [getAllOrganizationMembers] for that team. *)
Theorem helpers_rebuild_org_scoped (db : Store) (adminId : Z) :
  Async.result (prismaMembership db) (Resolver2.retrieveOrgScopedAccessibleUsers adminId)
  = match
      find (fun m => match teamOf db m with
                     | Some t => isOrganization t
                     | None => false
                     end)
        (Async.result (prismaMembership db)
           (Resolver2Helpers.getAllAdminMemberships adminId))
    with
    | Some am =>
        map userId
          (Async.result (prismaMembership db)
             (Resolver2Helpers.getAllOrganizationMembers (teamId am)))
    | None => []
    end.
Proof.
  rewrite retrieveOrgScoped2_result.
  unfold Async.result, Resolver2Helpers.getAllAdminMemberships,
    Resolver2Helpers.getAllOrganizationMembers.
  cbn [Async.await Async.exec fst prismaMembership].
  rewrite find_filter.
  rewrite (find_agree (membershipMatches db (adminLookup2 adminId))
             (fun x =>
                membershipMatches db
                  {| where_userId := Some adminId;
                     where_userId_in := None;
                     where_teamId := None;
                     where_role_in := Some [OWNER; ADMIN];
                     where_accepted := Some true;
                     where_team_isOrganization := None |} x
                && match teamOf db x with
                   | Some t => isOrganization t
                   | None => false
                   end)).
  - destruct (find _ (memberships db)) as [am|]; reflexivity.
  - intros m. unfold membershipMatches, adminLookup2; simpl.
    destruct (userId m =? adminId), (role m), (accepted m),
      (teamOf db m) as [[? ? []]|]; reflexivity.
Qed.

(** ** The guard: when it returns, and what it does on a refusal *)

Lemma find_is_Some {A} (p : A -> bool) (l : list A) (x : A) :
  x ∈ l -> p x = true -> exists y, find p l = Some y.
Proof.
  intros Hin Hp. destruct (find p l) as [y|] eqn:Hfind; [now exists y|].
  apply list_elem_of_In in Hin. pose proof (find_none p l Hfind x Hin). congruence.
Qed.

(** X6.  The guard returns exactly in this case: the organization id is a
    number other than 0, the access check lets the user in, and either the
    team id is absent or 0, or the store has a team with that id whose
    parent is the organization.  What it returns is then the organization
    id.  In every other case it throws. *)
Theorem guard_returns_exactly_when
    {TrpcSessionUser : Type} (saml : TrpcSessionUser -> Z -> OrganizationAccess)
    (db : Store) (user : TrpcSessionUser) (orgId teamId : option Z) (r : Validated) :
  guardOutcome saml db user orgId teamId = Returned r
  <-> exists org,
        orgId = Some org /\ org <> 0 /\ r = {| organizationId := org |}
        /\ access (saml user org) = true
        /\ (truthyNumber teamId = None
            \/ exists t, t ∈ teams db /\ teamId = Some (id t) /\ parentId t = Some org).
Proof.
  unfold guardOutcome, Async.result, userCanCreateTeamGroupMapping.
  destruct orgId as [org|]; simpl.
  2: { split; [discriminate | intros (org & [=] & _)]. }
  destruct (Z.eqb_spec org 0) as [->|Hne]; simpl.
  { split; [discriminate | intros (org & [= <-] & Hne & _); contradiction]. }
  destruct (access (saml user org)) eqn:Haccess; simpl.
  2: { split; [discriminate|]. intros (org' & [= <-] & _ & _ & Hacc & _). congruence. }
  destruct (truthyNumber teamId) as [tid|] eqn:Hteam; simpl.
  - assert (Htid : teamId = Some tid /\ tid <> 0).
    { unfold truthyNumber in Hteam. destruct teamId as [z|]; [|discriminate].
      destruct (Z.eqb_spec z 0); [discriminate|]. injection Hteam as <-. now split. }
    destruct Htid as [-> Htid].
    destruct (find _ (teams db)) as [t|] eqn:Hfind; simpl.
    + apply team_found_in_organization in Hfind as (Hin & Hid & Hparent).
      split.
      * intros [= <-]. exists org. repeat split; try assumption.
        right. exists t. repeat split; [assumption | now rewrite Hid | assumption].
      * intros (org' & [= <-] & _ & -> & _). reflexivity.
    + split; [discriminate|].
      intros (org' & [= <-] & _ & _ & _ & [Hnone | (t & Hin & [= ->] & Hparent)]);
        [discriminate|].
      destruct (find_is_Some
                  (teamMatches {| where_id := Some (id t); where_parentId := Some org |})
                  (teams db) t Hin) as [y Hy]; [|congruence].
      unfold teamMatches; simpl. rewrite Z.eqb_refl.
      now rewrite bool_decide_eq_true_2.
  - split.
    + intros [= <-]. exists org. repeat split; try assumption. now left.
    + intros (org' & [= <-] & _ & -> & _). reflexivity.
Qed.

(** X7.  When the organization id is not 0 and the access check refuses
    the user, the guard throws a 400 error that carries the message of the
    check, whatever the team id, and the access check is the only call it
    has made: the team store is not consulted. *)
Theorem guard_refusal_skips_team_lookup
    {TrpcSessionUser : Type} (saml : TrpcSessionUser -> Z -> OrganizationAccess)
    (db : Store) (user : TrpcSessionUser) (org : Z) (teamId : option Z) :
  org <> 0 ->
  access (saml user org) = false ->
  guardOutcome saml db user (Some org) teamId
  = Thrown {| statusCode := 400; message := access_message (saml user org) |}
  /\ guardCalls saml db user (Some org) teamId
     = [Async.issued (canAccessOrganization user org)].
Proof.
  intros Hne Hdenied.
  unfold guardOutcome, guardCalls, Async.result, Async.calls,
    userCanCreateTeamGroupMapping; simpl.
  destruct (Z.eqb_spec org 0) as [|_]; [contradiction|]. simpl.
  rewrite Hdenied. simpl. split; reflexivity.
Qed.

Lemma guard_refusal_skips_team_lookup_witness :
  guardOutcome samlDeniesAll pendingOwnerStore 1 (Some 10) (Some 11)
  = Thrown {| statusCode := 400; message := "not_authorized" |}
  /\ guardCalls samlDeniesAll pendingOwnerStore 1 (Some 10) (Some 11)
     = [Async.issued (canAccessOrganization 1 10)].
Proof.
  apply (guard_refusal_skips_team_lookup samlDeniesAll pendingOwnerStore 1 10 (Some 11));
    [lia | reflexivity].
Defined.

(** ** The dedup step: order, and what it records *)

Lemma filterWith_sublist {S A} (callback : S -> A -> Completion (bool * S))
    (s : S) (l : list A) (kept : list A) (s' : S) :
  filterWith callback s l = Normal (kept, s') -> kept `sublist_of` l.
Proof.
  revert s kept. induction l as [|x l IH]; intros s kept Hrun.
  - injection Hrun as <- _. constructor.
  - apply filterWith_cons_Normal in Hrun as (keep & s1 & kept1 & _ & Hrest & ->).
    specialize (IH _ _ Hrest). destruct keep; now constructor.
Qed.

Lemma keptBookings_sublist status bookings kept :
  keptBookings status bookings = Normal kept -> kept `sublist_of` bookings.
Proof.
  intros (shown & Hrun)%keptBookings_Normal. exact (filterWith_sublist _ _ _ _ _ Hrun).
Qed.

(** X8.  For every status the bookings that the dedup step returns are a
    sub-sequence of the bookings of the query: the step drops bookings but
    neither reorders nor repeats nor invents one.  In particular distinct
    booking ids stay distinct. *)
Theorem kept_bookings_subsequence (status : BookingListingStatus)
    (bookings kept : list BookingOutput) :
  keptBookings status bookings = Normal kept ->
  kept `sublist_of` bookings
  /\ (NoDup (map booking_id bookings) -> NoDup (map booking_id kept)).
Proof.
  intros Hsub%keptBookings_sublist.
  split; [exact Hsub|].
  intros Hnd. exact (sublist_NoDup _ _ Hnd (fmap_sublist booking_id _ _ Hsub)).
Qed.

Lemma kept_bookings_subsequence_witness :
  [weekly_1; blank_1; blank_2] `sublist_of` bookings cancelledBookings
  /\ NoDup (map booking_id [weekly_1; blank_1; blank_2]).
Proof.
  destruct (kept_bookings_subsequence cancelled (bookings cancelledBookings)
              [weekly_1; blank_1; blank_2]) as [Hsub Hnd]; [vm_compute; reflexivity|].
  split; [exact Hsub|]. apply Hnd.
  vm_compute. repeat (constructor; [rewrite list_elem_of_In; simpl; lia|]). constructor.
Defined.

Section TrackingFacts.

Variable status : BookingListingStatus.
Hypothesis Hdedup : dedupStatus status.

(** What is recorded under a recurring id grows by the instances of that
    series, in input order. *)
Lemma shown_of_series rid bookings shown kept shown' :
  rid <> ""%string ->
  filterWith (filterBookings status) shown bookings = Normal (kept, shown') ->
  recorded shown' rid = recorded shown rid ++ filter (inSeries rid) bookings.
Proof.
  intros Hrid. revert shown kept.
  induction bookings as [|b bookings IH]; intros shown kept Hrun.
  - injection Hrun as _ <-. cbn. now rewrite app_nil_r.
  - apply filterWith_cons_Normal in Hrun as (keep & shown1 & kept1 & Hstep & Hrest & ->).
    rewrite (filterBookings_dedup status Hdedup) in Hstep.
    specialize (IH _ _ Hrest). rewrite IH. clear IH Hrest.
    destruct (truthyString (recurringEventId b)) as [rid'|] eqn:Hb.
    + apply truthyString_Some in Hb as [Hb Hrid'].
      destruct (seen shown rid') eqn:Hseen.
      * injection Hstep as _ <-. rewrite recorded_assign.
        destruct (decide (rid' = rid)) as [->|Hne].
        -- rewrite filter_cons_True by exact Hb. now rewrite <- app_assoc.
        -- rewrite (filter_cons_False (inSeries rid)); [reflexivity|].
           unfold inSeries. congruence.
      * destruct (clashes shown rid'); [discriminate|].
        injection Hstep as _ <-. rewrite recorded_assign.
        destruct (decide (rid' = rid)) as [->|Hne].
        -- rewrite filter_cons_True by exact Hb.
           rewrite seen_recorded in Hseen.
           destruct (recorded shown rid) as [|b0 l0]; [reflexivity | discriminate Hseen].
        -- rewrite (filter_cons_False (inSeries rid)); [reflexivity|].
           unfold inSeries. congruence.
    + injection Hstep as _ <-.
      rewrite (filter_cons_False (inSeries rid)); [reflexivity|].
      unfold inSeries. intros Hin.
      assert (Hsome : truthyString (recurringEventId b) = Some rid)
        by (apply truthyString_Some; now split).
      congruence.
Qed.

(** The arrays that the filter stores are never empty. *)
Lemma shown_arrays_nonempty bookings shown kept shown' :
  (forall k l, JsObject.get k shown = JsObject.array l -> l <> []) ->
  filterWith (filterBookings status) shown bookings = Normal (kept, shown') ->
  forall k l, JsObject.get k shown' = JsObject.array l -> l <> [].
Proof.
  revert shown kept. induction bookings as [|b bookings IH]; intros shown kept Hshown Hrun.
  - now injection Hrun as _ <-.
  - apply filterWith_cons_Normal in Hrun as (keep & shown1 & kept1 & Hstep & Hrest & ->).
    rewrite (filterBookings_dedup status Hdedup) in Hstep.
    refine (IH _ _ _ Hrest). clear IH Hrest.
    assert (Hassign : forall rid l0, l0 <> [] ->
              forall k l, JsObject.get k (JsObject.assign rid l0 shown) = JsObject.array l ->
                          l <> []).
    { intros rid l0 Hl0 k l. destruct (decide (rid = k)) as [<-|Hne].
      - rewrite get_assign_eq. now intros [= <-].
      - rewrite (get_assign_other _ _ _ _ _ Hne). apply Hshown. }
    destruct (truthyString (recurringEventId b)) as [rid'|].
    + destruct (seen shown rid'); [|destruct (clashes shown rid'); [discriminate|]];
        injection Hstep as _ <-; apply Hassign;
        [now destruct (recorded shown rid') | discriminate].
    + now injection Hstep as _ <-.
Qed.

End TrackingFacts.

(** X9.  When status is recurring, unconfirmed or cancelled and the filter
    returns, [shownBookings] has recorded, under every non-empty recurring
    id, all the bookings of that series in input order -- the one that is
    shown and the ones that are not: for a series with an instance,
    [shownBookings[id]] is the array of its instances; for an id without
    one, [shownBookings[id]] is no array of bookings (it is [undefined], or
    what the object inherits under that name). *)
Theorem shown_bookings_record_series (status : BookingListingStatus)
    (bookings : list BookingOutput) (shownBookings : JsObject.Dictionary BookingOutput)
    (rid : string) :
  dedupStatus status ->
  rid <> ""%string ->
  shownBookingsAfter status bookings = Normal shownBookings ->
  match filter (inSeries rid) bookings with
  | [] => forall shown, JsObject.get rid shownBookings <> JsObject.array shown
  | series => JsObject.get rid shownBookings = JsObject.array series
  end.
Proof.
  intros Hdedup Hrid Hafter. unfold shownBookingsAfter in Hafter.
  destruct (filterWith (filterBookings status) JsObject.emptyDictionary bookings)
    as [[kept shown']|] eqn:Hrun; [|discriminate].
  injection Hafter as ->.
  pose proof (shown_of_series status Hdedup rid _ _ _ _ Hrid Hrun) as Hrecorded.
  rewrite recorded_empty in Hrecorded. cbn [app] in Hrecorded.
  assert (Hfull : forall k l, JsObject.get k shownBookings = JsObject.array l -> l <> []).
  { apply (shown_arrays_nonempty status Hdedup bookings JsObject.emptyDictionary kept);
      [|exact Hrun].
    intros k l Hget. pose proof (recorded_empty k) as Hnone.
    unfold recorded in Hnone. rewrite Hget in Hnone. subst l.
    pose proof (seen_empty k) as Hseen. unfold seen in Hseen. rewrite Hget in Hseen.
    exfalso. clear -Hget. unfold JsObject.get, JsObject.emptyDictionary in Hget.
    cbn [JsObject.own JsObject.proto JsObject.getOwn JsObject.empty] in Hget.
    destruct (decide (k = "__proto__"%string)); [discriminate|].
    now apply inherited_no_array in Hget. }
  unfold recorded in Hrecorded.
  destruct (filter (inSeries rid) bookings) as [|first rest].
  - intros shown Hget. rewrite Hget in Hrecorded. subst shown.
    now apply Hfull in Hget.
  - destruct (JsObject.get rid shownBookings) as [l| | |]; try discriminate Hrecorded.
    now rewrite Hrecorded.
Qed.

Lemma shown_bookings_record_series_witness :
  exists shownBookings,
    shownBookingsAfter cancelled (bookings cancelledBookings) = Normal shownBookings
    /\ JsObject.get "weekly" shownBookings = JsObject.array [weekly_1; weekly_2; weekly_3]
    /\ forall shown, JsObject.get "constructor" shownBookings <> JsObject.array shown.
Proof.
  eexists. split; [vm_compute; reflexivity|].
  split.
  - apply (shown_bookings_record_series cancelled (bookings cancelledBookings) _ "weekly");
      [right; right; reflexivity | discriminate | vm_compute; reflexivity].
  - apply (shown_bookings_record_series cancelled (bookings cancelledBookings) _
             "constructor");
      [right; right; reflexivity | discriminate | vm_compute; reflexivity].
Defined.

(** X24.  When status is recurring, unconfirmed or cancelled and a booking
    of the page has as its recurring id the name of a method of
    [Object.prototype] that takes an argument ("constructor",
    "hasOwnProperty", "isPrototypeOf", ...), the callback takes the inherited
    function for a non-empty array and calls its [push]: the filter ends in
    a [TypeError], and [groupedBookings] with it, wherever the booking
    stands in the page. *)
Theorem method_named_series_throws (timeZone instant : Z) (status : BookingListingStatus)
    (query_data : QueryData) (b : BookingOutput) (rid : string) (n : Z) :
  dedupStatus status ->
  b ∈ bookings query_data ->
  recurringEventId b = Some rid ->
  JsObject.getOwn rid JsObject.objectPrototype = Some n ->
  0 < n ->
  keptBookings status (bookings query_data) = TypeError
  /\ groupedBookings timeZone instant status (Some query_data) = TypeError.
Proof.
  intros Hdedup Hb Hid Hmethod Hn.
  assert (Hkept : keptBookings status (bookings query_data) = TypeError).
  { unfold keptBookings.
    now rewrite (method_id_throws status Hdedup (bookings query_data)
                   JsObject.emptyDictionary b rid n Hb Hid Hmethod Hn eq_refl). }
  split; [exact Hkept|].
  unfold groupedBookings. now rewrite Hkept.
Qed.

Lemma method_named_series_throws_witness :
  keptBookings cancelled (bookings constructorBookings) = TypeError
  /\ groupedBookings utc noon_15_june_2025 cancelled (Some constructorBookings) = TypeError.
Proof.
  apply (method_named_series_throws utc noon_15_june_2025 cancelled constructorBookings
           named_constructor "constructor" 1).
  - right; right; reflexivity.
  - apply list_elem_of_In. vm_compute. tauto.
  - reflexivity.
  - reflexivity.
  - lia.
Defined.

(** ** Which bookings get a row *)

Lemma dataRows_app (l1 l2 : list RowData) :
  dataRows (l1 ++ l2) = dataRows l1 ++ dataRows l2.
Proof.
  induction l1 as [|[b f i|label] l1 IH]; simpl; [reflexivity| |exact IH].
  now rewrite IH.
Qed.

Lemma dataRows_sectionRows (label : string) (rows : list RowData) :
  dataRows (sectionRows label rows) = dataRows rows.
Proof. destruct rows; reflexivity. Qed.

Lemma dataRows_rows timeZone now infos (bs : list BookingOutput) :
  dataRows (map (rowOf timeZone now infos) bs) = bs.
Proof. induction bs as [|b bs IH]; simpl; [reflexivity|]. now rewrite IH. Qed.

Lemma dataRows_concat (ls : list (list RowData)) :
  dataRows (concat ls) = concat (map dataRows ls).
Proof.
  induction ls as [|l ls IH]; simpl; [reflexivity|]. now rewrite dataRows_app, IH.
Qed.

Lemma dataRows_flat_map {A} (f : A -> list RowData) (l : list A) :
  dataRows (flat_map f l) = flat_map (fun x => dataRows (f x)) l.
Proof.
  induction l as [|x l IH]; simpl; [reflexivity|]. now rewrite dataRows_app, IH.
Qed.

(** The rows for status "upcoming", section by section. *)
Lemma finalData_upcoming (t : string -> string) (g : Grouped) :
  finalData t upcoming g
  = sectionRows (t "today") (today g)
    ++ sectionRows (t "this_month") (currentMonth g)
    ++ flat_map (fun monthKey =>
                   sectionRows (Dayjs.format_MMMM_YYYY monthKey) (monthRows g monthKey))
                (sortedMonthKeys g).
Proof.
  unfold finalData. rewrite bool_decide_eq_false_2 by (intros H; now apply H).
  rewrite month_sections_appended.
  destruct (today g) as [|r1 l1], (currentMonth g) as [|r2 l2]; simpl;
    try reflexivity.
  now rewrite <- app_assoc.
Qed.

Lemma finalData_other (t : string -> string) (status : BookingListingStatus) (g : Grouped) :
  status <> upcoming -> finalData t status g = flatData g.
Proof. intros Hstatus. unfold finalData. now rewrite bool_decide_eq_true_2. Qed.

Lemma flat_map_agree_on {A B} (f g : A -> list B) (l : list A) :
  (forall x, x ∈ l -> f x = g x) -> flat_map f l = flat_map g l.
Proof.
  induction l as [|x l IH]; intros Hfg; [reflexivity|]. cbn [flat_map].
  rewrite (Hfg x) by constructor. rewrite IH; [reflexivity|].
  intros y Hy. apply Hfg. now constructor.
Qed.

(** Going through the keys of a dictionary and taking what is stored under
    each gives its values. *)
Lemma values_by_key {V : Type} (o : JsObject.t (list V)) :
  NoDup (JsObject.keys o) ->
  flat_map (fun k => default [] (JsObject.getOwn k o)) (JsObject.keys o)
  = concat (JsObject.values o).
Proof.
  unfold JsObject.keys, JsObject.values.
  induction o as [|[k v] o IH]; intros Hnd; [reflexivity|].
  apply NoDup_cons in Hnd as [Hk Hnd]. cbn [map flat_map concat fst snd JsObject.getOwn].
  rewrite decide_True by reflexivity. cbn [default from_option]. unfold Datatypes.id.
  f_equal. rewrite <- (IH Hnd). apply flat_map_agree_on. intros k' Hk'.
  rewrite decide_False; [reflexivity|].
  intros ->. now apply Hk.
Qed.

Lemma values_after_push {V : Type} (o : JsObject.t (list V)) (k : string) (x : V) :
  concat (JsObject.values (JsObject.set k (default [] (JsObject.getOwn k o) ++ [x]) o))
  ≡ₚ concat (JsObject.values o) ++ [x].
Proof.
  unfold JsObject.values.
  induction o as [|[k' v'] o IH]; cbn [JsObject.getOwn JsObject.set].
  - reflexivity.
  - destruct (decide (k' = k)) as [->|Hne]; cbn [map concat snd].
    + cbn [default from_option]. unfold Datatypes.id.
      rewrite <- !app_assoc. apply Permutation_app_head, Permutation_app_comm.
    + rewrite IH. now rewrite app_assoc.
Qed.

(** Two filters that no element passes together split the filter for
    either. *)
Lemma filter_either {A} (p q : A -> bool) (l : list A) :
  (forall x, p x = true -> q x = false) ->
  filter (fun x => p x = true) l ++ filter (fun x => q x = true) l
  ≡ₚ filter (fun x => p x || q x = true) l.
Proof.
  intros Hpq. induction l as [|x l IH]; [reflexivity|].
  destruct (p x) eqn:Hp.
  - rewrite (filter_cons_True (fun x => p x = true)) by exact Hp.
    rewrite (filter_cons_False (fun x => q x = true)) by (rewrite (Hpq x Hp); discriminate).
    rewrite (filter_cons_True (fun x => p x || q x = true)) by (now rewrite Hp).
    cbn [app]. now rewrite IH.
  - rewrite (filter_cons_False (fun x => p x = true)) by congruence.
    destruct (q x) eqn:Hq.
    + rewrite (filter_cons_True (fun x => q x = true)) by exact Hq.
      rewrite (filter_cons_True (fun x => p x || q x = true)) by (now rewrite Hp, Hq).
      rewrite <- Permutation_middle. now rewrite IH.
    + rewrite (filter_cons_False (fun x => q x = true)) by congruence.
      rewrite (filter_cons_False (fun x => p x || q x = true))
        by (rewrite Hp, Hq; discriminate).
      exact IH.
Qed.

Section EmittedFacts.

Variable timeZone : Z.
Variable now : Dayjs.t.
Variable infos : list RecurringInfo.

(** The month buckets after the loop hold, besides what they held, the
    rows of the bookings that start after the current month. *)
Lemma placed_in_months kept acc :
  concat (JsObject.values (monthBuckets (fold_left (placeBooking timeZone now infos) kept acc)))
  ≡ₚ concat (JsObject.values (monthBuckets acc))
     ++ map (rowOf timeZone now infos)
          (filter (fun b => negb (startsToday timeZone now b)
                            && negb (insideCurrentMonth timeZone now b)
                            && afterCurrentMonth timeZone now b = true) kept).
Proof.
  revert acc. induction kept as [|b kept IH]; intros acc; cbn [fold_left].
  - rewrite filter_nil. cbn [map]. now rewrite app_nil_r.
  - rewrite IH, place_unfold, filter_cons.
    destruct (startsToday timeZone now b); cbn [negb andb monthBuckets];
      [rewrite decide_False by discriminate; reflexivity|].
    destruct (insideCurrentMonth timeZone now b); cbn [negb andb monthBuckets];
      [rewrite decide_False by discriminate; reflexivity|].
    destruct (afterCurrentMonth timeZone now b); cbn [monthBuckets];
      [|rewrite decide_False by discriminate; reflexivity].
    rewrite decide_True by reflexivity. cbn [map].
    unfold monthRows. rewrite values_after_push.
    rewrite <- app_assoc. reflexivity.
Qed.

End EmittedFacts.

(** The bookings of the emitted data rows are, up to their order, the kept
    bookings that [emittedFor] names. *)
Lemma emitted_bookings_perm (t : string -> string) (timeZone instant : Z)
    (status : BookingListingStatus) (infos : list RecurringInfo)
    (kept : list BookingOutput) :
  dataRows (finalData t status (bucketsOf timeZone instant infos kept))
  ≡ₚ filter (fun b => emittedFor status timeZone (Dayjs.tz instant timeZone) b = true) kept.
Proof.
  set (now := Dayjs.tz instant timeZone).
  set (g := bucketsOf timeZone instant infos kept).
  destruct (groupedBookings_buckets timeZone instant infos kept) as (Ht & Hc & _ & Hnd).
  fold now g in Ht, Hc, Hnd.
  pose proof (placed_in_months timeZone now infos kept noBookings) as Hm.
  change (fold_left _ kept noBookings) with g in Hm. cbn [noBookings monthBuckets] in Hm.
  change (concat (JsObject.values JsObject.empty)) with (@nil RowData) in Hm.
  cbn [app] in Hm.
  assert (Hflat : dataRows (flatData g)
                  ≡ₚ filter (fun b => negb (startsToday timeZone now b)
                                      && (insideCurrentMonth timeZone now b
                                          || afterCurrentMonth timeZone now b) = true) kept).
  { unfold flatData. rewrite dataRows_app, Hc, dataRows_rows.
    assert (Hmonths : dataRows (concat (JsObject.values (monthBuckets g)))
                      ≡ₚ filter (fun b => negb (startsToday timeZone now b)
                                          && negb (insideCurrentMonth timeZone now b)
                                          && afterCurrentMonth timeZone now b = true) kept).
    { rewrite <- (dataRows_rows timeZone now infos (filter _ kept)).
      clear -Hm. revert Hm.
      generalize (concat (JsObject.values (monthBuckets g))).
      generalize (map (rowOf timeZone now infos)
                    (filter (fun b => negb (startsToday timeZone now b)
                                      && negb (insideCurrentMonth timeZone now b)
                                      && afterCurrentMonth timeZone now b = true) kept)).
      intros l2 l1 Hperm. induction Hperm as [|x l l' _ IH|x y l|l l' l'' _ IH1 _ IH2].
      - reflexivity.
      - destruct x; simpl; [now rewrite IH | exact IH].
      - destruct x, y; simpl; try reflexivity. apply perm_swap.
      - now rewrite IH1. }
    rewrite Hmonths.
    rewrite (list_filter_iff
               (fun b => startsToday timeZone now b = false
                         /\ insideCurrentMonth timeZone now b = true)
               (fun b => negb (startsToday timeZone now b)
                         && insideCurrentMonth timeZone now b = true)).
    2: { intros b. destruct (startsToday timeZone now b),
           (insideCurrentMonth timeZone now b); simpl; intuition congruence. }
    rewrite filter_either.
    - apply Permutation_refl'. apply list_filter_iff. intros b.
      destruct (startsToday timeZone now b), (insideCurrentMonth timeZone now b),
        (afterCurrentMonth timeZone now b); simpl; tauto.
    - intros b. destruct (startsToday timeZone now b),
        (insideCurrentMonth timeZone now b); simpl; congruence. }
  destruct (decide (status = upcoming)) as [->|Hstatus].
  - rewrite finalData_upcoming.
    rewrite !dataRows_app, !dataRows_sectionRows, dataRows_flat_map.
    assert (Hkeys : flat_map (fun x => dataRows (sectionRows (Dayjs.format_MMMM_YYYY x)
                                                   (monthRows g x))) (sortedMonthKeys g)
                    ≡ₚ dataRows (concat (JsObject.values (monthBuckets g)))).
    { rewrite <- (values_by_key _ Hnd), dataRows_flat_map.
      unfold sortedMonthKeys. rewrite (merge_sort_Permutation String.le).
      apply Permutation_refl'. apply flat_map_ext. intros k.
      now rewrite dataRows_sectionRows. }
    rewrite Hkeys, Ht, dataRows_rows.
    rewrite <- dataRows_app. fold (flatData g). rewrite Hflat.
    rewrite filter_either.
    + apply Permutation_refl'. apply list_filter_iff. intros b. unfold emittedFor.
      destruct (startsToday timeZone now b); cbn [negb andb orb]; [|reflexivity].
      rewrite bool_decide_eq_true_2 by reflexivity. tauto.
    + intros b ->. reflexivity.
  - rewrite finalData_other by exact Hstatus. rewrite Hflat.
    apply Permutation_refl'. apply list_filter_iff. intros b. unfold emittedFor.
    destruct (startsToday timeZone now b); cbn [negb andb orb]; [|reflexivity].
    rewrite bool_decide_eq_false_2 by exact Hstatus. split; discriminate.
Qed.

(** The emitted bookings are among those of the query, in its order. *)
Lemma emitted_sublist (status : BookingListingStatus) (timeZone instant : Z)
    (bookings kept : list BookingOutput) :
  keptBookings status bookings = Normal kept ->
  filter (fun b => emittedFor status timeZone (Dayjs.tz instant timeZone) b = true) kept
    `sublist_of` bookings.
Proof.
  intros Hkept. transitivity kept; [apply sublist_filter|].
  now apply (keptBookings_sublist status).
Qed.

(** X10.  For every status, when the dedup step returns the kept bookings,
    [groupedBookings] returns, and the bookings of the data rows of
    [finalData] are, up to their order, exactly the kept bookings that the
    loop puts in a bucket -- without those of today unless the status is
    "upcoming" -- each as often as it is kept; and they are all bookings of
    the query result, none more often than there. *)
Theorem emitted_bookings_are_kept_bookings (t : string -> string) (timeZone instant : Z)
    (status : BookingListingStatus) (query_data : QueryData) (kept : list BookingOutput) :
  keptBookings status (bookings query_data) = Normal kept ->
  exists g,
    groupedBookings timeZone instant status (Some query_data) = Normal g
    /\ dataRows (finalData t status g)
       ≡ₚ filter (fun b => emittedFor status timeZone (Dayjs.tz instant timeZone) b = true)
            kept
    /\ dataRows (finalData t status g) ⊆+ bookings query_data.
Proof.
  intros Hkept. exists (bucketsOf timeZone instant (recurringInfo query_data) kept).
  split; [apply groupedBookings_Normal; now exists kept|].
  split; [apply emitted_bookings_perm|].
  rewrite emitted_bookings_perm. apply sublist_submseteq.
  now apply (emitted_sublist status).
Qed.

Lemma emitted_bookings_are_kept_bookings_witness :
  exists g,
    groupedBookings utc noon_15_june_2025 cancelled (Some cancelledBookings) = Normal g
    /\ dataRows (finalData t_en cancelled g)
       ≡ₚ filter (fun b => emittedFor cancelled utc (Dayjs.tz noon_15_june_2025 utc) b = true)
            [weekly_1; blank_1; blank_2]
    /\ dataRows (finalData t_en cancelled g) ⊆+ bookings cancelledBookings.
Proof.
  apply (emitted_bookings_are_kept_bookings t_en utc noon_15_june_2025 cancelled
           cancelledBookings [weekly_1; blank_1; blank_2]).
  vm_compute. reflexivity.
Defined.

(** X11.  If the bookings of the query result have distinct ids, no id
    occurs twice among the data rows that [finalData] builds from the
    buckets [groupedBookings] returns, whatever the status. *)
Theorem no_booking_listed_twice (t : string -> string) (timeZone instant : Z)
    (status : BookingListingStatus) (query_data : QueryData) (g : Grouped) :
  NoDup (map booking_id (bookings query_data)) ->
  groupedBookings timeZone instant status (Some query_data) = Normal g ->
  NoDup (map booking_id (dataRows (finalData t status g))).
Proof.
  intros Hnd (kept & Hkept & ->)%groupedBookings_Normal.
  rewrite emitted_bookings_perm.
  exact (sublist_NoDup _ _ Hnd
           (fmap_sublist booking_id _ _
              (emitted_sublist status timeZone instant _ _ Hkept))).
Qed.

Lemma no_booking_listed_twice_witness :
  NoDup (map booking_id (dataRows (finalData t_en upcoming summerBuckets))).
Proof.
  apply (no_booking_listed_twice t_en utc noon_15_june_2025 upcoming summerBookings).
  - vm_compute. repeat (constructor; [rewrite list_elem_of_In; simpl; lia|]). constructor.
  - vm_compute. reflexivity.
Defined.

(** ** The shape of the list for "upcoming" *)

Lemma Sectioned_app (l1 l2 : list RowData) :
  Sectioned l1 -> Sectioned l2 -> Sectioned (l1 ++ l2).
Proof.
  intros H1 H2. induction H1 as [|label r rows rest Hrows _ IH]; [exact H2|].
  cbn [app]. rewrite <- app_assoc. now constructor.
Qed.

Lemma Sectioned_sectionRows (label : string) (rows : list RowData) :
  Forall (fun r => isData r = true) rows -> Sectioned (sectionRows label rows).
Proof.
  intros Hrows. destruct rows as [|r rows]; [constructor|]. cbn [sectionRows].
  rewrite <- (app_nil_r rows). constructor; [exact Hrows | constructor].
Qed.

Lemma Sectioned_flat_map {A} (f : A -> list RowData) (l : list A) :
  (forall x, Sectioned (f x)) -> Sectioned (flat_map f l).
Proof.
  intros Hf. induction l as [|x l IH]; [constructor|].
  cbn [flat_map]. now apply Sectioned_app.
Qed.

Lemma rows_are_data timeZone now infos (bs : list BookingOutput) :
  Forall (fun r => isData r = true) (map (rowOf timeZone now infos) bs).
Proof. induction bs as [|b bs IH]; constructor; [reflexivity | exact IH]. Qed.

(** In a sectioned list a separator is never last and never followed by a
    separator, and the first row, if any, is a separator. *)
Lemma Sectioned_separators (l : list RowData) :
  Sectioned l ->
  (forall r, l !! 0%nat = Some r -> isData r = false)
  /\ (forall i label, l !! i = Some (separator label) ->
        exists r, l !! S i = Some r /\ isData r = true).
Proof.
  intros Hl. induction Hl as [|label r rows rest Hrows _ [_ IH]].
  - split; [intros r [=] | intros i label [=]].
  - split; [intros r0 [= <-]; reflexivity|].
    intros [|j] label' Hi; [exists r; split; [reflexivity|]; now inversion Hrows|].
    cbn [lookup list_lookup] in Hi.
    change (r :: rows ++ rest) with ((r :: rows) ++ rest) in Hi |- *.
    change ((separator label :: (r :: rows) ++ rest) !! S (S j))
      with (((r :: rows) ++ rest) !! S j).
    apply lookup_app_Some in Hi as [Hi | [Hlen Hi]].
    + exfalso. rewrite Forall_forall in Hrows.
      apply list_elem_of_lookup_2, Hrows in Hi. discriminate Hi.
    + destruct (IH _ _ Hi) as (r' & Hr' & Hdata). exists r'. split; [|exact Hdata].
      rewrite lookup_app_r by lia.
      replace (S j - length (r :: rows))%nat with (S (j - length (r :: rows)))%nat by lia.
      exact Hr'.
Qed.

Lemma upcoming_Sectioned (t : string -> string) (timeZone instant : Z)
    (infos : list RecurringInfo) (kept : list BookingOutput) :
  Sectioned (finalData t upcoming (bucketsOf timeZone instant infos kept)).
Proof.
  rewrite finalData_upcoming.
  destruct (groupedBookings_buckets timeZone instant infos kept) as (Ht & Hc & Hm & _).
  apply Sectioned_app; [|apply Sectioned_app].
  - apply Sectioned_sectionRows. rewrite Ht. apply rows_are_data.
  - apply Sectioned_sectionRows. rewrite Hc. apply rows_are_data.
  - apply Sectioned_flat_map. intros k. apply Sectioned_sectionRows.
    rewrite Hm. apply rows_are_data.
Qed.

(** For a status that collapses nothing the filter never throws, and
    [groupedBookings] returns the buckets filled from all the bookings. *)
Lemma groupedBookings_without_dedup timeZone instant status query_data :
  ~ dedupStatus status ->
  exists infos kept,
    groupedBookings timeZone instant status query_data
    = Normal (bucketsOf timeZone instant infos kept).
Proof.
  intros Hno. destruct query_data as [query_data|].
  - exists (recurringInfo query_data), (bookings query_data).
    apply groupedBookings_Normal. exists (bookings query_data). split; [|reflexivity].
    unfold keptBookings. now rewrite kept_all_without_dedup.
  - now exists [], [].
Qed.

Lemma upcoming_no_dedup : ~ dedupStatus upcoming.
Proof. intros [H | [H | H]]; discriminate H. Qed.

(** X12.  For status "upcoming" [groupedBookings] returns, and the list is
    made of sections, each a separator followed by one or more data rows:
    the first row, if there is one, is a separator, and a separator is
    always followed by a data row, so that no section is empty and the list
    never ends with a separator. *)
Theorem upcoming_rows_sectioned (t : string -> string) (timeZone instant : Z)
    (query_data : option QueryData) :
  exists g,
    groupedBookings timeZone instant upcoming query_data = Normal g
    /\ let rows := finalData t upcoming g in
       Sectioned rows
       /\ (forall r, rows !! 0%nat = Some r -> isData r = false)
       /\ (forall i label, rows !! i = Some (separator label) ->
             exists r, rows !! S i = Some r /\ isData r = true).
Proof.
  destruct (groupedBookings_without_dedup timeZone instant upcoming query_data
              upcoming_no_dedup) as (infos & kept & Hg).
  eexists. split; [exact Hg|]. intros rows.
  pose proof (upcoming_Sectioned t timeZone instant infos kept) as Hs.
  split; [exact Hs | now apply Sectioned_separators].
Qed.

(** ** What a data row carries *)

Lemma in_sectionRows (label : string) (rows : list RowData) (r : RowData) :
  r ∈ sectionRows label rows -> isData r = true -> r ∈ rows.
Proof.
  destruct rows as [|r0 rows]; [intros H; now apply elem_of_nil in H|].
  cbn [sectionRows]. intros Hin Hdata.
  apply elem_of_cons in Hin as [->|Hin]; [discriminate | exact Hin].
Qed.

(** Every data row of the list is the row the loop built for some kept
    booking. *)
Lemma final_row_of_kept (t : string -> string) (timeZone instant : Z)
    (status : BookingListingStatus) (infos : list RecurringInfo)
    (kept : list BookingOutput) (r : RowData) :
  r ∈ finalData t status (bucketsOf timeZone instant infos kept) ->
  isData r = true ->
  exists b, b ∈ kept /\ r = rowOf timeZone (Dayjs.tz instant timeZone) infos b.
Proof.
  intros Hin Hdata.
  set (g := bucketsOf timeZone instant infos kept) in *.
  destruct (groupedBookings_buckets timeZone instant infos kept) as (Ht & Hc & Hm & Hnd).
  fold g in Ht, Hc, Hm, Hnd.
  assert (Hbucket : r ∈ today g \/ r ∈ currentMonth g \/ exists k, r ∈ monthRows g k).
  { destruct (decide (status = upcoming)) as [->|Hstatus].
    - rewrite finalData_upcoming in Hin.
      apply elem_of_app in Hin as [Hin|Hin];
        [left; now apply in_sectionRows in Hin|].
      apply elem_of_app in Hin as [Hin|Hin];
        [right; left; now apply in_sectionRows in Hin|].
      right; right. apply list_elem_of_In, in_flat_map in Hin as (k & _ & Hin).
      exists k. apply list_elem_of_In in Hin. now apply in_sectionRows in Hin.
    - rewrite finalData_other in Hin by exact Hstatus. unfold flatData in Hin.
      apply elem_of_app in Hin as [Hin|Hin]; [now right; left|].
      right; right. now apply month_bucket_row. }
  destruct Hbucket as [Hr | [Hr | [k Hr]]].
  - rewrite Ht in Hr. apply list_elem_of_fmap in Hr as (b & -> & Hb).
    apply list_elem_of_filter in Hb as [_ Hb]. exists b. split; [exact Hb | reflexivity].
  - rewrite Hc in Hr. apply list_elem_of_fmap in Hr as (b & -> & Hb).
    apply list_elem_of_filter in Hb as [_ Hb]. exists b. split; [exact Hb | reflexivity].
  - rewrite Hm in Hr. apply list_elem_of_fmap in Hr as (b & -> & Hb).
    apply list_elem_of_filter in Hb as [_ Hb]. exists b. split; [exact Hb | reflexivity].
Qed.

(** X13.  Every data row that [finalData] builds from the buckets
    [groupedBookings] returns, for every status, belongs to a booking of the
    query result; its [isToday] flag is set exactly when the
    booking starts today in the caller's zone; and its [recurringInfo] is
    the first entry of the query's [recurringInfo] with the booking's
    recurring id (so an entry it carries has that id), or is missing when
    there is no such entry. *)
Theorem emitted_row_coherent (t : string -> string) (timeZone instant : Z)
    (status : BookingListingStatus) (query_data : QueryData) (g : Grouped)
    (b : BookingOutput) (flag : bool) (info : option RecurringInfo) :
  groupedBookings timeZone instant status (Some query_data) = Normal g ->
  data b flag info ∈ finalData t status g ->
  b ∈ bookings query_data
  /\ (flag = true
      <-> dateOf timeZone b = Dayjs.format_YYYY_MM_DD (Dayjs.tz instant timeZone))
  /\ info = find (fun i => sameRecurringEventId (info_recurringEventId i)
                             (recurringEventId b)) (recurringInfo query_data)
  /\ (forall i, info = Some i -> info_recurringEventId i = recurringEventId b).
Proof.
  intros (kept & Hrun & ->)%groupedBookings_Normal Hin.
  apply final_row_of_kept in Hin as (b' & Hkept & Heq); [|reflexivity].
  unfold rowOf in Heq. injection Heq as <- -> ->.
  split; [|split; [|split]].
  - eapply elem_of_sublist; [exact Hkept | now apply (keptBookings_sublist status)].
  - unfold startsToday. apply bool_decide_eq_true.
  - reflexivity.
  - intros i Hi. apply find_some in Hi as [_ Hi].
    unfold sameRecurringEventId in Hi. now apply bool_decide_eq_true in Hi.
Qed.

Lemma emitted_row_coherent_witness :
  b_june ∈ bookings summerBookings
  /\ (false = true
      <-> dateOf utc b_june = Dayjs.format_YYYY_MM_DD (Dayjs.tz noon_15_june_2025 utc)).
Proof.
  assert (Hg : groupedBookings utc noon_15_june_2025 past (Some summerBookings)
               = Normal summerBuckets) by (vm_compute; reflexivity).
  assert (Hin : data b_june false None ∈ finalData t_en past summerBuckets).
  { apply list_elem_of_In. vm_compute. tauto. }
  destruct (emitted_row_coherent t_en utc noon_15_june_2025 past summerBookings
              summerBuckets b_june false None Hg Hin) as (Hb & Hflag & _).
  split; [exact Hb | exact Hflag].
Defined.

(** ** Previous and next in the details sheet *)

Lemma findIndex_range {A} (p : A -> bool) (l : list A) :
  -1 <= findIndex p l < Z.of_nat (length l).
Proof.
  induction l as [|x l IH]; cbn [findIndex length]; [lia|].
  destruct (p x); [lia|]. destruct (Z.eqb_spec (findIndex p l) (-1)); lia.
Qed.

Lemma findIndex_none {A} (p : A -> bool) (l : list A) :
  findIndex p l = -1 <-> forall x, x ∈ l -> p x = false.
Proof.
  induction l as [|x l IH]; cbn [findIndex].
  - split; [intros _ x Hx; now apply elem_of_nil in Hx | reflexivity].
  - pose proof (findIndex_range p l) as Hrange.
    destruct (p x) eqn:Hp.
    + split; [discriminate|]. intros Hall.
      rewrite (Hall x) in Hp by constructor. discriminate.
    + destruct (Z.eqb_spec (findIndex p l) (-1)) as [Heq|Hne].
      * split; [|reflexivity]. intros _ y Hy.
        apply elem_of_cons in Hy as [->|Hy]; [exact Hp|]. now apply IH.
      * split; [lia|]. intros Hall. exfalso. apply Hne, IH.
        intros y Hy. apply Hall. now constructor.
Qed.

(** The index found is that of the first element the callback accepts. *)
Lemma findIndex_found {A} (p : A -> bool) (l : list A) (n : nat) (x : A) :
  l !! n = Some x -> p x = true ->
  (forall m y, (m < n)%nat -> l !! m = Some y -> p y = false) ->
  findIndex p l = Z.of_nat n.
Proof.
  revert n. induction l as [|x0 l IH]; intros n Hn Hp Hfirst; [discriminate|].
  cbn [findIndex]. destruct n as [|n].
  - injection Hn as ->. now rewrite Hp.
  - rewrite (Hfirst 0%nat x0) by (lia || reflexivity).
    rewrite (IH n Hn Hp).
    + destruct (Z.eqb_spec (Z.of_nat n) (-1)); lia.
    + intros m y Hm Hy. apply (Hfirst (S m) y); [lia | exact Hy].
Qed.

Lemma findIndex_lookup {A} (p : A -> bool) (l : list A) :
  findIndex p l <> -1 ->
  exists x, l !! Z.to_nat (findIndex p l) = Some x /\ p x = true.
Proof.
  induction l as [|x0 l IH]; cbn [findIndex]; [contradiction|].
  destruct (p x0) eqn:Hp; [intros _; now exists x0|].
  pose proof (findIndex_range p l) as Hrange.
  destruct (Z.eqb_spec (findIndex p l) (-1)) as [Heq|Hne]; [contradiction|].
  intros _. destruct (IH Hne) as (x & Hx & Hpx). exists x. split; [|exact Hpx].
  replace (Z.to_nat (findIndex p l + 1)) with (S (Z.to_nat (findIndex p l))) by lia.
  exact Hx.
Qed.

(** X14.  [bookingNavigation] for any selection and any rows: a callback
    is defined exactly when its flag is set (the row it reads is always
    there), the booking it selects is the booking of a data row of the
    list, never a separator, and when nothing is selected or no data row
    has the id of the selected booking there is no navigation at all. *)
Theorem navigation_stays_in_list (selectedBooking : option BookingOutput)
    (finalData : list RowData) :
  let nav := bookingNavigation selectedBooking finalData in
  (hasPrevious nav = true <-> is_Some (onPrevious nav))
  /\ (hasNext nav = true <-> is_Some (onNext nav))
  /\ (forall b, onPrevious nav = Some b \/ onNext nav = Some b -> b ∈ dataRows finalData)
  /\ ((forall s, selectedBooking = Some s ->
                 forall b, b ∈ dataRows finalData -> booking_id b <> booking_id s) ->
      nav = noNavigation).
Proof.
  intros nav. subst nav. unfold bookingNavigation.
  destruct selectedBooking as [s|].
  2: { cbn. repeat split; try discriminate; try (intros [? [=]]).
       intros b [[=]|[=]]. }
  set (rows := dataRows finalData).
  set (p := fun row : BookingOutput => booking_id row =? booking_id s).
  pose proof (findIndex_range p rows) as Hrange.
  destruct (Z.eqb_spec (findIndex p rows) (-1)) as [Heq|Hne].
  { cbn. repeat split; try discriminate; try (intros [? [=]]).
    intros b [[=]|[=]]. }
  cbn [hasPrevious hasNext onPrevious onNext].
  split; [|split; [|split]].
  - destruct (Z.ltb_spec 0 (findIndex p rows)) as [Hlt|Hge].
    + split; [intros _|reflexivity]. apply lookup_lt_is_Some. lia.
    + split; [discriminate | intros [? [=]]].
  - destruct (Z.ltb_spec (findIndex p rows) (Z.of_nat (length rows) - 1)) as [Hlt|Hge].
    + split; [intros _|reflexivity]. apply lookup_lt_is_Some. lia.
    + split; [discriminate | intros [? [=]]].
  - intros b [Hb|Hb].
    + destruct (0 <? findIndex p rows); [|discriminate].
      now apply list_elem_of_lookup_2 in Hb.
    + destruct (findIndex p rows <? Z.of_nat (length rows) - 1); [|discriminate].
      now apply list_elem_of_lookup_2 in Hb.
  - intros Hnone. exfalso. apply Hne, findIndex_none.
    intros b Hb. subst p. cbn. apply Z.eqb_neq. now apply (Hnone s).
Qed.

(** With distinct ids, the index found for an id is the position of the
    row that has it. *)
Lemma findIndex_of_id (rows : list BookingOutput) (n : nat) (b s : BookingOutput) :
  NoDup (map booking_id rows) ->
  rows !! n = Some b ->
  booking_id s = booking_id b ->
  findIndex (fun row => booking_id row =? booking_id s) rows = Z.of_nat n.
Proof.
  intros Hnd Hn Hid. apply (findIndex_found _ rows n b Hn).
  - rewrite Hid. apply Z.eqb_refl.
  - intros m y Hm Hy. apply Z.eqb_neq. intros Heq.
    assert (Hmn : m = n); [|lia].
    apply (NoDup_lookup (map booking_id rows) m n (booking_id b) Hnd).
    + change (map booking_id rows) with (booking_id <$> rows).
      rewrite list_lookup_fmap, Hy. cbn. congruence.
    + change (map booking_id rows) with (booking_id <$> rows).
      now rewrite list_lookup_fmap, Hn.
Qed.

Lemma navigation_at (finalData : list RowData) (n : nat) (b s : BookingOutput) :
  NoDup (map booking_id (dataRows finalData)) ->
  dataRows finalData !! n = Some b ->
  booking_id s = booking_id b ->
  bookingNavigation (Some s) finalData
  = {| hasPrevious := bool_decide (0 < n)%nat;
       hasNext := bool_decide (S n < length (dataRows finalData))%nat;
       onPrevious := match n with
                     | O => None
                     | S m => dataRows finalData !! m
                     end;
       onNext := dataRows finalData !! S n |}.
Proof.
  intros Hnd Hn Hid. unfold bookingNavigation.
  rewrite (findIndex_of_id _ n b s Hnd Hn Hid).
  destruct (Z.eqb_spec (Z.of_nat n) (-1)) as [|_]; [lia|].
  f_equal.
  - destruct (Z.ltb_spec 0 (Z.of_nat n)).
    + now rewrite bool_decide_eq_true_2 by lia.
    + now rewrite bool_decide_eq_false_2 by lia.
  - destruct (Z.ltb_spec (Z.of_nat n) (Z.of_nat (length (dataRows finalData)) - 1)).
    + now rewrite bool_decide_eq_true_2 by lia.
    + now rewrite bool_decide_eq_false_2 by lia.
  - destruct n as [|m]; [reflexivity|].
    destruct (Z.ltb_spec 0 (Z.of_nat (S m))); [|lia].
    now replace (Z.to_nat (Z.of_nat (S m) - 1)) with m by lia.
  - destruct (Z.ltb_spec (Z.of_nat n) (Z.of_nat (length (dataRows finalData)) - 1)).
    + now replace (Z.to_nat (Z.of_nat n + 1)) with (S n) by lia.
    + symmetry. apply lookup_ge_None. lia.
Qed.

(** X15.  When the data rows have distinct booking ids and the selected
    booking has the id of the data row at position [n] (separators not
    counted), "previous" is offered exactly when [n > 0] and selects the
    booking at position [n - 1], and "next" is offered exactly when a data
    row follows and selects the booking at position [n + 1]: the sheet walks
    the data rows in list order, skipping separators and no booking. *)
Theorem navigation_walks_data_rows (finalData : list RowData) (n : nat)
    (b selectedBooking : BookingOutput) :
  NoDup (map booking_id (dataRows finalData)) ->
  dataRows finalData !! n = Some b ->
  booking_id selectedBooking = booking_id b ->
  let nav := bookingNavigation (Some selectedBooking) finalData in
  (hasPrevious nav = true <-> (0 < n)%nat)
  /\ (hasNext nav = true <-> (S n < length (dataRows finalData))%nat)
  /\ onPrevious nav = match n with
                      | O => None
                      | S m => dataRows finalData !! m
                      end
  /\ onNext nav = dataRows finalData !! S n.
Proof.
  intros Hnd Hn Hid nav. subst nav.
  rewrite (navigation_at finalData n b selectedBooking Hnd Hn Hid).
  cbn [hasPrevious hasNext onPrevious onNext].
  rewrite !bool_decide_eq_true. repeat split; auto.
Qed.

Lemma navigation_walks_data_rows_witness :
  onPrevious (bookingNavigation (Some b_july_1) (finalData t_en upcoming summerBuckets))
  = Some b_june
  /\ onNext (bookingNavigation (Some b_july_1) (finalData t_en upcoming summerBuckets))
     = Some b_july_2.
Proof.
  assert (Hnd : NoDup (map booking_id (dataRows (finalData t_en upcoming summerBuckets)))).
  { vm_compute. repeat (constructor; [rewrite list_elem_of_In; simpl; lia|]). constructor. }
  pose proof (navigation_walks_data_rows _ 2%nat b_july_1 b_july_1 Hnd
                ltac:(reflexivity) ltac:(reflexivity)) as Hnav.
  cbv zeta in Hnav. destruct Hnav as (_ & _ & Hprev & Hnext).
  split; [rewrite Hprev | rewrite Hnext]; reflexivity.
Defined.

(** X16.  On the rows built from a query result with distinct booking ids,
    for every status: going to the next booking and then to the previous
    one comes back to the booking of the row one started from, and so does
    previous followed by next. *)
Theorem navigation_round_trip (t : string -> string) (timeZone instant : Z)
    (status : BookingListingStatus) (query_data : QueryData) (g : Grouped)
    (b : BookingOutput) :
  NoDup (map booking_id (bookings query_data)) ->
  groupedBookings timeZone instant status (Some query_data) = Normal g ->
  let rows := finalData t status g in
  b ∈ dataRows rows ->
  (forall b', onNext (bookingNavigation (Some b) rows) = Some b' ->
              onPrevious (bookingNavigation (Some b') rows) = Some b)
  /\ (forall b', onPrevious (bookingNavigation (Some b) rows) = Some b' ->
                 onNext (bookingNavigation (Some b') rows) = Some b).
Proof.
  intros Hquery (kept & Hkept & ->)%groupedBookings_Normal rows Hb.
  assert (Hnd : NoDup (map booking_id (dataRows rows))).
  { subst rows. rewrite emitted_bookings_perm.
    exact (sublist_NoDup _ _ Hquery
             (fmap_sublist booking_id _ _
                (emitted_sublist status timeZone instant _ _ Hkept))). }
  apply list_elem_of_lookup in Hb as [n Hn].
  rewrite (navigation_at rows n b b Hnd Hn eq_refl).
  cbn [onPrevious onNext]. split.
  - intros b' Hnext.
    rewrite (navigation_at rows (S n) b' b' Hnd Hnext eq_refl).
    cbn [onPrevious]. exact Hn.
  - intros b' Hprev. destruct n as [|m]; [discriminate|].
    rewrite (navigation_at rows m b' b' Hnd Hprev eq_refl).
    cbn [onNext]. exact Hn.
Qed.

Lemma navigation_round_trip_witness :
  (forall b', onNext (bookingNavigation (Some b_june)
                        (finalData t_en upcoming summerBuckets)) = Some b' ->
              onPrevious (bookingNavigation (Some b')
                            (finalData t_en upcoming summerBuckets)) = Some b_june)
  /\ onNext (bookingNavigation (Some b_june) (finalData t_en upcoming summerBuckets))
     = Some b_july_1.
Proof.
  assert (Hquery : NoDup (map booking_id (bookings summerBookings))).
  { vm_compute. repeat (constructor; [rewrite list_elem_of_In; simpl; lia|]). constructor. }
  assert (Hg : groupedBookings utc noon_15_june_2025 upcoming (Some summerBookings)
               = Normal summerBuckets) by (vm_compute; reflexivity).
  pose proof (navigation_round_trip t_en utc noon_15_june_2025 upcoming summerBookings
                summerBuckets b_june Hquery Hg) as Htrip.
  cbv zeta in Htrip.
  assert (Hin : b_june ∈ dataRows (finalData t_en upcoming summerBuckets)).
  { apply list_elem_of_In. vm_compute. tauto. }
  destruct (Htrip Hin) as [Hnext _].
  split; [exact Hnext | vm_compute; reflexivity].
Defined.

(** ** The classes of the rows *)

Lemma other_rows_are_data (t : string -> string) (timeZone instant : Z)
    (status : BookingListingStatus) (infos : list RecurringInfo)
    (kept : list BookingOutput) (r : RowData) :
  status <> upcoming ->
  r ∈ finalData t status (bucketsOf timeZone instant infos kept) ->
  isData r = true.
Proof.
  intros Hstatus Hin. rewrite finalData_other in Hin by exact Hstatus.
  destruct (groupedBookings_buckets timeZone instant infos kept) as (_ & Hc & Hm & Hnd).
  unfold flatData in Hin. apply elem_of_app in Hin as [Hin|Hin].
  - rewrite Hc in Hin. apply list_elem_of_fmap in Hin as (b & -> & _). reflexivity.
  - apply month_bucket_row in Hin as [k Hin]; [|exact Hnd].
    rewrite Hm in Hin. apply list_elem_of_fmap in Hin as (b & -> & _). reflexivity.
Qed.

(** X17.  For every status other than "upcoming", every row of the list
    gets the empty class, except the last one, which gets ["!border-b-0"]
    (the row after it is missing, which the test for a separator takes for
    one). *)
Theorem other_status_row_classes (t : string -> string) (timeZone instant : Z)
    (status : BookingListingStatus) (query_data : option QueryData) (g : Grouped)
    (i : nat) (r : RowData) :
  status <> upcoming ->
  groupedBookings timeZone instant status query_data = Normal g ->
  let rows := finalData t status g in
  rows !! i = Some r ->
  rowClassName rows i r = if bool_decide (S i = length rows) then "!border-b-0" else "".
Proof.
  intros Hstatus (infos & kept & ->)%groupedBookings_filled rows Hi.
  assert (Hdata : forall r, r ∈ rows -> isData r = true).
  { intros r0 Hr0. now apply (other_rows_are_data t timeZone instant status infos kept). }
  unfold rowClassName. rewrite (Hdata r) by (now apply list_elem_of_lookup_2 in Hi).
  cbn [negb]. rewrite Nat.add_1_r.
  pose proof (lookup_lt_Some _ _ _ Hi) as Hlt.
  destruct (rows !! S i) as [next|] eqn:Hnext.
  - rewrite (Hdata next) by (now apply list_elem_of_lookup_2 in Hnext). cbn [negb].
    apply lookup_lt_Some in Hnext. now rewrite bool_decide_eq_false_2 by lia.
  - apply lookup_ge_None in Hnext. now rewrite bool_decide_eq_true_2 by lia.
Qed.

Lemma other_status_row_classes_witness :
  rowClassName (finalData t_en past summerBuckets) 3 (data b_july_2 false None)
  = "!border-b-0"%string
  /\ rowClassName (finalData t_en past summerBuckets) 0 (data b_june false None)
     = ""%string.
Proof.
  assert (Hpast : past <> upcoming) by discriminate.
  assert (Hg : groupedBookings utc noon_15_june_2025 past (Some summerBookings)
               = Normal summerBuckets) by (vm_compute; reflexivity).
  split.
  - apply (other_status_row_classes t_en utc noon_15_june_2025 past (Some summerBookings)
             summerBuckets 3 (data b_july_2 false None) Hpast Hg).
    vm_compute. reflexivity.
  - apply (other_status_row_classes t_en utc noon_15_june_2025 past (Some summerBookings)
             summerBuckets 0 (data b_june false None) Hpast Hg).
    vm_compute. reflexivity.
Defined.

(** In a sectioned list the row before a separator is a data row, and so
    is the last row. *)
Lemma Sectioned_before_separator (l : list RowData) (i : nat) (label : string) :
  Sectioned l ->
  l !! S i = Some (separator label) ->
  exists r, l !! i = Some r /\ isData r = true.
Proof.
  intros Hl. revert i. induction Hl as [|label0 r rows rest Hrows _ IH]; intros i Hi;
    [discriminate|].
  change (((r :: rows) ++ rest) !! i = Some (separator label)) in Hi.
  apply lookup_app_Some in Hi as [Hi | [Hlen Hi]].
  - exfalso. rewrite Forall_forall in Hrows.
    apply list_elem_of_lookup_2, Hrows in Hi. discriminate Hi.
  - destruct (i - length (r :: rows))%nat as [|k] eqn:Hk.
    + assert (Hprev : is_Some ((r :: rows) !! (i - 1)%nat))
        by (apply lookup_lt_is_Some; cbn [length] in *; lia).
      destruct Hprev as [r' Hr']. exists r'. split.
      * destruct i as [|j]; [cbn [length] in Hlen; lia|].
        change ((separator label0 :: r :: rows ++ rest) !! S j)
          with (((r :: rows) ++ rest) !! j).
        rewrite lookup_app_l by (apply lookup_lt_Some in Hr'; lia).
        now replace (S j - 1)%nat with j in Hr' by lia.
      * rewrite Forall_forall in Hrows. now apply list_elem_of_lookup_2, Hrows in Hr'.
    + destruct (IH k Hi) as (r' & Hr' & Hdata). exists r'. split; [|exact Hdata].
      destruct i as [|j]; [lia|].
      change ((separator label0 :: r :: rows ++ rest) !! S j)
          with (((r :: rows) ++ rest) !! j).
      rewrite lookup_app_r by lia.
      now replace (j - length (r :: rows))%nat with k by lia.
Qed.

Lemma Sectioned_last_data (l : list RowData) (i : nat) (r : RowData) :
  Sectioned l -> l !! i = Some r -> S i = length l -> isData r = true.
Proof.
  intros Hl Hi Hlast. destruct r as [b f info|label]; [reflexivity|].
  destruct (Sectioned_separators l Hl) as [_ Hnext].
  destruct (Hnext i label Hi) as (r' & Hr' & _).
  apply lookup_lt_Some in Hr'. lia.
Qed.

(** X18.  For status "upcoming": the first row of a non-empty list gets
    ["!bg-muted"] without a top border; every later separator gets the
    bordered class, and the row just before it is a data row that gets
    ["!border-b-0"], so that the two borders never meet; the last row of the
    list gets ["!border-b-0"] too. *)
Theorem upcoming_row_classes (t : string -> string) (timeZone instant : Z)
    (query_data : option QueryData) :
  exists g,
    groupedBookings timeZone instant upcoming query_data = Normal g
    /\ let rows := finalData t upcoming g in
       (forall r, rows !! 0%nat = Some r -> rowClassName rows 0 r = "!bg-muted"%string)
       /\ (forall i label,
             rows !! S i = Some (separator label) ->
             rowClassName rows (S i) (separator label)
             = "!bg-muted border-subtle border-t"%string
             /\ exists r, rows !! i = Some r /\ isData r = true
                          /\ rowClassName rows i r = "!border-b-0"%string)
       /\ (forall i r, rows !! i = Some r -> S i = length rows ->
                       rowClassName rows i r = "!border-b-0"%string).
Proof.
  destruct (groupedBookings_without_dedup timeZone instant upcoming query_data
              upcoming_no_dedup) as (infos & kept & Hg).
  eexists. split; [exact Hg|]. intros rows.
  pose proof (upcoming_Sectioned t timeZone instant infos kept) as Hs. fold rows in Hs.
  destruct (Sectioned_separators rows Hs) as [Hfirst _].
  split; [|split].
  - intros r Hr. unfold rowClassName. now rewrite (Hfirst r Hr).
  - intros i label Hi. split; [reflexivity|].
    destruct (Sectioned_before_separator rows i label Hs Hi) as (r & Hr & Hdata).
    exists r. split; [exact Hr|]. split; [exact Hdata|].
    unfold rowClassName. rewrite Hdata. cbn [negb]. rewrite Nat.add_1_r, Hi.
    reflexivity.
  - intros i r Hi Hlast. unfold rowClassName.
    rewrite (Sectioned_last_data rows i r Hs Hi Hlast). cbn [negb].
    rewrite Nat.add_1_r.
    now rewrite (proj2 (lookup_ge_None rows (S i))) by lia.
Qed.

(** ** The view parameter and the error toast *)

(** X19.  [viewParser] round trips: parsing what [serialize] gives returns
    the view; serializing what [parse] gives returns the string exactly
    when the string is "list" or "calendar", every other string being read
    as the list view. *)
Theorem viewParser_round_trip :
  (forall v, viewParser.parse (viewParser.serialize v) = v)
  /\ (forall s, viewParser.serialize (viewParser.parse s) = s
                <-> s = "list"%string \/ s = "calendar"%string)
  /\ (forall s, s <> "calendar"%string -> viewParser.parse s = list_view).
Proof.
  split; [|split].
  - intros []; reflexivity.
  - intros s. unfold viewParser.parse.
    destruct (decide (s = "calendar"%string)) as [->|Hne]; cbn.
    + split; [now right | reflexivity].
    + split; [intros <-; now left | intros [->| ->]; [reflexivity | contradiction]].
  - intros s Hne. unfold viewParser.parse. now rewrite decide_False.
Qed.

(** X20.  The toast after a failed location update, when the two
    translations it may use are not empty: its message is never empty; for
    code BAD_REQUEST it is the message of the error unless that is empty,
    in which case, as for every code other than UNAUTHORIZED and for a
    missing code, it is the translation of "location_update_failed". *)
Theorem location_error_message_shown (t : string -> string) (code : option string)
    (e_message : string) :
  t "you_are_unauthorized_to_make_this_change_to_the_booking" <> ""%string ->
  t "location_update_failed" <> ""%string ->
  locationErrorMessage t code e_message <> ""%string
  /\ (code = Some "BAD_REQUEST"%string ->
      locationErrorMessage t code e_message
      = if decide (e_message = ""%string) then t "location_update_failed" else e_message)
  /\ (code = Some "UNAUTHORIZED"%string ->
      locationErrorMessage t code e_message
      = t "you_are_unauthorized_to_make_this_change_to_the_booking")
  /\ (code <> Some "BAD_REQUEST"%string -> code <> Some "UNAUTHORIZED"%string ->
      locationErrorMessage t code e_message = t "location_update_failed").
Proof.
  intros Hunauthorized Hfailed. unfold locationErrorMessage. cbn [JsObject.getOwn].
  set (key := default "undefined"%string code).
  assert (Hkey : forall c, key = c -> c <> "undefined"%string -> code = Some c).
  { subst key. destruct code as [c0|]; cbn; [now intros c -> | congruence]. }
  destruct (decide ("UNAUTHORIZED"%string = key)) as [Hu|Hu].
  - pose proof (Hkey _ (eq_sym Hu) ltac:(discriminate)) as ->.
    unfold truthyString. rewrite decide_False by exact Hunauthorized.
    repeat split; try assumption; try reflexivity; try discriminate; congruence.
  - destruct (decide ("BAD_REQUEST"%string = key)) as [Hb|Hb].
    + pose proof (Hkey _ (eq_sym Hb) ltac:(discriminate)) as ->.
      unfold truthyString.
      destruct (decide (e_message = ""%string)) as [->|Hne];
        repeat split; try assumption; try reflexivity; try discriminate; congruence.
    + cbn [truthyString].
      repeat split; try assumption; try reflexivity.
      * intros ->. subst key. cbn in Hb. congruence.
      * intros ->. subst key. cbn in Hu. congruence.
Qed.

Lemma location_error_message_shown_witness :
  locationErrorMessage t_en (Some "BAD_REQUEST"%string) "" = "location_update_failed"%string
  /\ locationErrorMessage t_en None "boom" = "location_update_failed"%string.
Proof.
  destruct (location_error_message_shown t_en (Some "BAD_REQUEST"%string) ""
              ltac:(discriminate) ltac:(discriminate)) as (_ & Hbad & _).
  destruct (location_error_message_shown t_en None "boom"
              ltac:(discriminate) ltac:(discriminate)) as (_ & _ & _ & Hother).
  split; [now apply Hbad | apply Hother; discriminate].
Defined.

(** ** A click, and a series *)

Lemma data_row_in_dataRows (rows : list RowData) (b : BookingOutput) (flag : bool)
    (info : option RecurringInfo) :
  data b flag info ∈ rows -> b ∈ dataRows rows.
Proof.
  induction rows as [|r rows IH]; intros Hin; [now apply elem_of_nil in Hin|].
  apply elem_of_cons in Hin as [<-|Hin]; [constructor|].
  destruct r as [b0 f0 i0|label]; cbn [dataRows]; [constructor|]; now apply IH.
Qed.

(** X21.  A click on a separator leaves the selection as it is.  A click
    on a data row of the list selects its booking, and if the list has more
    than one data row the sheet then offers "previous" or "next" (or both). *)
Theorem click_selects_a_listed_booking (selectedBooking : option BookingOutput)
    (finalData : list RowData) (row : RowData) :
  row ∈ finalData ->
  match row with
  | separator _ => handleRowClick selectedBooking row = selectedBooking
  | data b _ _ =>
      handleRowClick selectedBooking row = Some b
      /\ b ∈ dataRows finalData
      /\ ((1 < length (dataRows finalData))%nat ->
          hasPrevious (bookingNavigation (Some b) finalData) = true
          \/ hasNext (bookingNavigation (Some b) finalData) = true)
  end.
Proof.
  intros Hin. destruct row as [b flag info|label]; [|reflexivity].
  pose proof (data_row_in_dataRows _ _ _ _ Hin) as Hb.
  split; [reflexivity|]. split; [exact Hb|]. intros Hmany.
  unfold bookingNavigation.
  set (p := fun row : BookingOutput => booking_id row =? booking_id b).
  pose proof (findIndex_range p (dataRows finalData)) as Hrange.
  destruct (Z.eqb_spec (findIndex p (dataRows finalData)) (-1)) as [Hnone|Hfound].
  - exfalso. rewrite findIndex_none in Hnone. specialize (Hnone b Hb).
    subst p. cbn in Hnone. now rewrite Z.eqb_refl in Hnone.
  - cbn [hasPrevious hasNext].
    destruct (Z.ltb_spec 0 (findIndex p (dataRows finalData))); [now left|].
    right. apply Z.ltb_lt. lia.
Qed.

Lemma click_selects_a_listed_booking_witness :
  handleRowClick None (data b_june false None) = Some b_june
  /\ b_june ∈ dataRows (finalData t_en past summerBuckets).
Proof.
  assert (Hin : data b_june false None ∈ finalData t_en past summerBuckets).
  { apply list_elem_of_In. vm_compute. tauto. }
  pose proof (click_selects_a_listed_booking None _ _ Hin) as Hclick.
  cbv beta iota in Hclick. destruct Hclick as (Hsel & Hb & _).
  split; [exact Hsel | exact Hb].
Defined.

(** X22.  When status is recurring, unconfirmed or cancelled, the list
    built from the buckets [groupedBookings] returns has at most one data
    row for a series with a non-empty recurring id. *)
Theorem series_has_at_most_one_row (t : string -> string) (timeZone instant : Z)
    (status : BookingListingStatus) (query_data : QueryData) (g : Grouped)
    (rid : string) :
  dedupStatus status ->
  rid <> ""%string ->
  groupedBookings timeZone instant status (Some query_data) = Normal g ->
  (length (filter (inSeries rid) (dataRows (finalData t status g))) <= 1)%nat.
Proof.
  intros Hdedup Hrid (kept & Hkept & ->)%groupedBookings_Normal.
  apply keptBookings_Normal in Hkept as (shown & Hrun).
  rewrite emitted_bookings_perm.
  assert (Hswap : forall (E : BookingOutput -> Prop) `{!forall b, Decision (E b)}
                         (l : list BookingOutput),
            filter (inSeries rid) (filter E l) = filter E (filter (inSeries rid) l)).
  { intros E HE l. rewrite !list_filter_filter. apply list_filter_iff. tauto. }
  rewrite Hswap.
  etransitivity; [apply length_filter|].
  rewrite (kept_of_series status Hdedup rid _ _ _ _ Hrid Hrun), seen_empty.
  rewrite length_take. lia.
Qed.

Lemma series_has_at_most_one_row_witness :
  (length (filter (inSeries "weekly") (dataRows (finalData t_en cancelled cancelledBuckets)))
   <= 1)%nat.
Proof.
  apply (series_has_at_most_one_row t_en utc noon_15_june_2025 cancelled
           cancelledBookings cancelledBuckets "weekly");
    [right; right; reflexivity | discriminate | vm_compute; reflexivity].
Defined.
